(** * Mafia: game logic and session routes

    A shallow embedding of the server side of the Mafia game:
    - [shared/schema.ts]: roles, phases, player status, the [games] and
      [players] tables;
    - [server/services/gameLogic.ts]: [assignRoles],
      [calculateRoleDistribution], [checkWinCondition],
      [processNightActions], [getValidTargets];
    - [server/storage.ts]: the record store of sessions and
      participants;
    - [server/routes.ts]: the handlers [join], [start], [next-phase],
      [vote], [action] and [end], and the registry of connections.

    JavaScript numbers that hold counters are integers ([Z]); the
    columns that store them are 32-bit, and a statement that needs a
    counter to stay in range says so.  Nullable columns are [option].
    A table is the list of its rows; an update keeps a row in its
    place, which the database does not promise: what is stated of a
    row holds of the row with that identifier, not of its position.  Handlers pass the store
    explicitly and return the HTTP response next to the new store.  The registry of
    WebSocket connections is a state of its own, modelled apart from
    the store; the chat table is not touched by the modelled handlers
    and is left out; the text-generation service and [Math.random] are
    parameters of the handlers that call them. *)

From stdpp Require Import base strings list gmap pretty.

Open Scope Z_scope.

(** ** shared/schema.ts *)

Inductive Role := VILLAGER | DOCTOR | DETECTIVE | MAFIA.
Inductive Phase := LOBBY | DAY | NIGHT | VOTING | ENDED.
Inductive PlayerStatus := ALIVE | ELIMINATED | SPECTATOR.

#[global] Instance Role_eq_dec : EqDecision Role.
Proof. solve_decision. Defined.
#[global] Instance Phase_eq_dec : EqDecision Phase.
Proof. solve_decision. Defined.
#[global] Instance PlayerStatus_eq_dec : EqDecision PlayerStatus.
Proof. solve_decision. Defined.

(** [Record<Role, number>]: the entries of the object in key order, as
    [Object.entries] lists them. *)
Definition RoleDistribution := list (Role * Z).

(** [roleDistribution[role]], with 0 for an absent key. *)
Fixpoint distCount (dist : RoleDistribution) (r : Role) : Z :=
  match dist with
  | [] => 0
  | (r', c) :: rest => if decide (r' = r) then c else distCount rest r
  end.

Module Player.
(** A row of the [players] table. *)
Record t := mk {
  id : string;
  gameId : string;
  name : string;
  role : option Role;
  status : PlayerStatus;
  isReady : bool;
  isHost : bool;
  votes : Z;
  votedFor : option string;
  lastAction : option string;
  actionTarget : option string;
  joinedAt : option Z
}.

(** The partial updates the handlers pass to [updatePlayer]. *)
Definition set_role (r : option Role) (p : t) : t :=
  mk (id p) (gameId p) (name p) r (status p) (isReady p) (isHost p)
     (votes p) (votedFor p) (lastAction p) (actionTarget p) (joinedAt p).
Definition set_status (s : PlayerStatus) (p : t) : t :=
  mk (id p) (gameId p) (name p) (role p) s (isReady p) (isHost p)
     (votes p) (votedFor p) (lastAction p) (actionTarget p) (joinedAt p).
Definition set_votes (v : Z) (p : t) : t :=
  mk (id p) (gameId p) (name p) (role p) (status p) (isReady p) (isHost p)
     v (votedFor p) (lastAction p) (actionTarget p) (joinedAt p).
Definition set_votedFor (w : option string) (p : t) : t :=
  mk (id p) (gameId p) (name p) (role p) (status p) (isReady p) (isHost p)
     (votes p) w (lastAction p) (actionTarget p) (joinedAt p).
Definition set_action (a tgt : option string) (p : t) : t :=
  mk (id p) (gameId p) (name p) (role p) (status p) (isReady p) (isHost p)
     (votes p) (votedFor p) a tgt (joinedAt p).
End Player.
Abbreviation Player := Player.t.

Module Game.
(** A row of the [games] table. *)
Record t := mk {
  id : string;
  roomCode : option string;
  name : string;
  hostId : string;
  maxPlayers : Z;
  currentPhase : Phase;
  dayNumber : Z;
  timeRemaining : option Z;
  isActive : bool;
  geminiApiKey : option string;
  narrative : option string;
  gameLog : option (list string);
  roleDistribution : option RoleDistribution;
  createdAt : option Z;
  updatedAt : option Z
}.

Definition set_updatedAt (now : Z) (g : t) : t :=
  mk (id g) (roomCode g) (name g) (hostId g) (maxPlayers g)
     (currentPhase g) (dayNumber g) (timeRemaining g) (isActive g)
     (geminiApiKey g) (narrative g) (gameLog g) (roleDistribution g)
     (createdAt g) (Some now).

(** [{ currentPhase, narrative, timeRemaining, gameLog }], the update
    of the start handler. *)
Definition set_started (ph : Phase) (n : option string) (tr : option Z)
    (lg : option (list string)) (g : t) : t :=
  mk (id g) (roomCode g) (name g) (hostId g) (maxPlayers g)
     ph (dayNumber g) tr (isActive g)
     (geminiApiKey g) n lg (roleDistribution g)
     (createdAt g) (updatedAt g).

(** [{ currentPhase, dayNumber, gameLog, narrative, timeRemaining }],
    the update of the next-phase handler. *)
Definition set_advanced (ph : Phase) (d : Z) (lg : option (list string))
    (n : option string) (tr : option Z) (g : t) : t :=
  mk (id g) (roomCode g) (name g) (hostId g) (maxPlayers g)
     ph d tr (isActive g)
     (geminiApiKey g) n lg (roleDistribution g)
     (createdAt g) (updatedAt g).
End Game.
Abbreviation Game := Game.t.

(** ** JavaScript truthiness of a nullable string

    [truthy o] is the string when [if (o)] takes its branch: [null] and
    the empty string are falsy. *)
Definition truthy (o : option string) : option string :=
  match o with
  | Some s => if decide (s = "") then None else Some s
  | None => None
  end.

(** ** A string field of a JSON request body

    [missing] when the body has no such field, so that destructuring
    [req.body] gives [undefined]; [given None] for [null]; [given (Some
    s)] for a string. *)
Inductive BodyField :=
  | missing
  | given (v : option string).

#[global] Instance BodyField_eq_dec : EqDecision BodyField.
Proof. solve_decision. Defined.

(** ** server/services/gameLogic.ts *)

Module RoleAssignment.
Record t := mk { playerId : string; role : Role }.
End RoleAssignment.
Abbreviation RoleAssignment := RoleAssignment.t.

(** [[a[i], a[j]] = [a[j], a[i]]]: both reads come first, then [a[i]]
    and [a[j]] are written.  The shuffle only calls it with
    [j <= i < a.length]. *)
Definition swap {A} (a : list A) (i j : nat) : list A :=
  match a !! i, a !! j with
  | Some x, Some y => <[j:=x]> (<[i:=y]> a)
  | _, _ => a
  end.

(** The shuffle loop [for (i = ...; i > 0; i--)].  [rand i] stands for
    the draw [Math.random()] of round [i]; [Math.floor(r * (i + 1))]
    is an index between 0 and [i], here [rand i `mod` (i + 1)]. *)
Fixpoint shuffleFrom {A} (rand : nat → nat) (i : nat) (a : list A) : list A :=
  match i with
  | O => a
  | S i' => shuffleFrom rand i' (swap a i (rand i `mod` (i + 1))%nat)
  end.

Definition shuffle {A} (rand : nat → nat) (a : list A) : list A :=
  shuffleFrom rand (length a - 1)%nat a.

(** The inner loop [for (i = 0; i < count; i++)], on the pair
    (assignments, playerIndex). *)
Fixpoint assignLoop (availablePlayers : list Player) (r : Role) (count : nat)
    (st : list RoleAssignment * nat) : list RoleAssignment * nat :=
  match count with
  | O => st
  | S count' =>
      let '(assignments, playerIndex) := st in
      match availablePlayers !! playerIndex with
      | Some p =>
          assignLoop availablePlayers r count'
            (assignments ++ [RoleAssignment.mk (Player.id p) r],
             S playerIndex)
      | None => assignLoop availablePlayers r count' st
      end
  end.

Definition assignRoles (rand : nat → nat) (players : list Player)
    (roleDistribution : RoleDistribution) : list RoleAssignment :=
  let availablePlayers := shuffle rand players in
  fst (foldl (λ st '(r, count), assignLoop availablePlayers r (Z.to_nat count) st)
             ([], O) roleDistribution).

Definition calculateRoleDistribution (playerCount : Z) : RoleDistribution :=
  let mafiaCount := playerCount `div` 3 in
  let doctorCount := 1 in
  let detectiveCount := 1 in
  let villagerCount := playerCount - mafiaCount - doctorCount - detectiveCount in
  [ (VILLAGER, Z.max 1 villagerCount);
    (DOCTOR, doctorCount);
    (DETECTIVE, detectiveCount);
    (MAFIA, Z.max 1 mafiaCount) ].

Module Winner.
Inductive t := VILLAGERS | MAFIA.
Definition str (w : t) : string :=
  match w with VILLAGERS => "VILLAGERS" | MAFIA => "MAFIA" end.
End Winner.

Definition checkWinCondition (players : list Player) : option Winner.t :=
  let alivePlayers := filter (λ p, Player.status p = ALIVE) players in
  let aliveMafia := filter (λ p, Player.role p = Some MAFIA) alivePlayers in
  let aliveVillagers := filter (λ p, Player.role p ≠ Some MAFIA) alivePlayers in
  if decide (length aliveMafia = 0%nat) then Some Winner.VILLAGERS
  else if decide (length aliveVillagers ≤ length aliveMafia)%nat then Some Winner.MAFIA
  else None.

Definition evProtected : string := "The doctor protected someone from harm.".
Definition evEliminated : string := "A villager was found eliminated at dawn.".
Definition evSurvived : string := "Someone was attacked but miraculously survived.".
Definition evInvestigated : string := "The detective gathered crucial information.".

(** The doctors' [forEach]: the state is ([saves], [events]). *)
Definition processSaves (doctors : list Player) (st : gset string * list string)
    : gset string * list string :=
  foldl (λ '(saves, events) doctor,
           match truthy (Player.actionTarget doctor) with
           | Some tgt => ({[ tgt ]} ∪ saves, events ++ [evProtected])
           | None => (saves, events)
           end) st doctors.

(** The mafia's [forEach]: it only pushes events. *)
Definition processKills (saves : gset string) (mafias : list Player)
    (events : list string) : list string :=
  foldl (λ events mafia,
           match truthy (Player.actionTarget mafia) with
           | Some tgt =>
               if decide (tgt ∉ saves) then events ++ [evEliminated]
               else events ++ [evSurvived]
           | None => events
           end) events mafias.

Definition processInvestigations (detectives : list Player)
    (events : list string) : list string :=
  foldl (λ events detective,
           match truthy (Player.actionTarget detective) with
           | Some _ => events ++ [evInvestigated]
           | None => events
           end) events detectives.

Definition processNightActions (players : list Player) : list string :=
  let actions :=
    filter (λ p, is_Some (truthy (Player.lastAction p))
                 ∧ is_Some (truthy (Player.actionTarget p))) players in
  let '(saves, events) :=
    processSaves
      (filter (λ p, Player.role p = Some DOCTOR ∧ Player.lastAction p = Some "HEAL")
              actions)
      (∅, []) in
  let events :=
    processKills saves
      (filter (λ p, Player.role p = Some MAFIA ∧ Player.lastAction p = Some "KILL")
              actions)
      events in
  processInvestigations
    (filter (λ p, Player.role p = Some DETECTIVE
                  ∧ Player.lastAction p = Some "INVESTIGATE") actions)
    events.

Definition getValidTargets (player : Player) (allPlayers : list Player)
    (phase : string) : list Player :=
  let alivePlayers :=
    filter (λ p, Player.status p = ALIVE ∧ Player.id p ≠ Player.id player)
           allPlayers in
  match Player.role player with
  | Some DOCTOR => if decide (phase = "NIGHT") then alivePlayers else []
  | Some DETECTIVE => if decide (phase = "NIGHT") then alivePlayers else []
  | Some MAFIA =>
      if decide (phase = "NIGHT")
      then filter (λ p, Player.role p ≠ Some MAFIA) alivePlayers
      else []
  | _ => if decide (phase = "VOTING") then alivePlayers else []
  end.

(** ** server/storage.ts *)

Record Storage := { games : list Game; players : list Player }.

Definition getGame (db : Storage) (i : string) : option Game :=
  head (filter (λ g, Game.id g = i) (games db)).

(** [update(games).set({...updates, updatedAt: new Date()}).where(id)]:
    every matching row is rewritten, the first rewritten row is
    returned.  [now] is the value of [new Date()]. *)
Definition updateGame (db : Storage) (i : string) (updates : Game → Game)
    (now : Z) : option Game * Storage :=
  let upd g := Game.set_updatedAt now (updates g) in
  (head (upd <$> filter (λ g, Game.id g = i) (games db)),
   {| games := (λ g, if decide (Game.id g = i) then upd g else g) <$> games db;
      players := players db |}).

Definition getPlayer (db : Storage) (i : string) : option Player :=
  head (filter (λ p, Player.id p = i) (players db)).

Definition getPlayersByGame (db : Storage) (gid : string) : list Player :=
  filter (λ p, Player.gameId p = gid) (players db).

Definition updatePlayer (db : Storage) (i : string) (updates : Player → Player)
    : option Player * Storage :=
  (head (updates <$> filter (λ p, Player.id p = i) (players db)),
   {| games := games db;
      players := (λ p, if decide (Player.id p = i) then updates p else p)
                   <$> players db |}).

(** [for (const x of xs) { await storage.updatePlayer(key(x), upd(x)); }] *)
Definition updatePlayers {X} (key : X → string) (upd : X → Player → Player)
    (db : Storage) (xs : list X) : Storage :=
  foldl (λ db x, (updatePlayer db (key x) (upd x)).2) db xs.

(** ** server/services/gemini.ts, as seen by the routes *)

Record NarrativeContext := {
  ctx_phase : Phase;
  ctx_dayNumber : Z;
  ctx_players : Z;
  ctx_previousEvents : list string;
  ctx_customPrompt : option string
}.

Record GameSummary := {
  summary_winner : string;
  summary : string;
  keyMoments : list string
}.

(** ** server/routes.ts *)

Inductive Response :=
  | json_game (g : option Game)            (* res.json(updatedGame) *)
  | json_success                           (* res.json({ success: true }) *)
  | status_json (code : Z) (message : string).

(** [arr.slice(-n)] *)
Definition slice_last {A} (n : nat) (l : list A) : list A :=
  drop (length l - n)%nat l.

(** A [Map<string, number>] keeps its keys in insertion order. *)
Definition VoteCounts := list (string * Z).

Fixpoint vc_get (m : VoteCounts) (k : string) : option Z :=
  match m with
  | [] => None
  | (k', v) :: rest => if decide (k' = k) then Some v else vc_get rest k
  end.

Fixpoint vc_set (m : VoteCounts) (k : string) (v : Z) : VoteCounts :=
  match m with
  | [] => [(k, v)]
  | (k', v') :: rest =>
      if decide (k' = k) then (k, v) :: rest else (k', v') :: vc_set rest k v
  end.

(** [alivePlayers.forEach(player => { if (player.votedFor) ... })] *)
Definition tallyVotes (alivePlayers : list Player) : VoteCounts :=
  foldl (λ voteCounts player,
           match truthy (Player.votedFor player) with
           | Some tgt => vc_set voteCounts tgt (default 0 (vc_get voteCounts tgt) + 1)
           | None => voteCounts
           end) [] alivePlayers.

(** [players.find(p => p.id === playerId)] *)
Definition findPlayer (players : list Player) (i : string) : option Player :=
  head (filter (λ p, Player.id p = i) players).

(** The loop over [voteCounts.entries()], on the pair
    ([eliminatedPlayer], [maxVotes]). *)
Definition mostVoted (players : list Player) (voteCounts : VoteCounts)
    : option Player * Z :=
  foldl (λ '(eliminatedPlayer, maxVotes) '(playerId, votes),
           if decide (votes > maxVotes)
           then (findPlayer players playerId, votes)
           else (eliminatedPlayer, maxVotes))
        (None, 0) voteCounts.

(** [new Set(players.filter(doctor, HEAL).map(p => p.actionTarget).filter(Boolean))] *)
Definition doctorSaves (players : list Player) : gset string :=
  list_to_set
    (omap (λ p, truthy (Player.actionTarget p))
       (filter (λ p, Player.role p = Some DOCTOR ∧ Player.lastAction p = Some "HEAL")
               players)).

Definition mafiaActions (players : list Player) : list Player :=
  filter (λ p, Player.role p = Some MAFIA ∧ Player.lastAction p = Some "KILL") players.

(** [for (const mafia of mafiaActions) { ... }] of the NIGHT case, on
    the pair (store, [newLog]). *)
Definition applyNightKills (players : list Player) (st : Storage * list string)
    : Storage * list string :=
  let saves := doctorSaves players in
  foldl (λ '(db, newLog) mafia,
           match truthy (Player.actionTarget mafia) with
           | Some tgt =>
               if decide (tgt ∉ saves) then
                 (snd (updatePlayer db tgt (Player.set_status ELIMINATED)),
                  match findPlayer players tgt with
                  | Some target =>
                      newLog ++ [Player.name target +:+ " was eliminated during the night"]
                  | None => newLog
                  end)
               else (db, newLog)
           | None => (db, newLog)
           end) st (mafiaActions players).

(** What a case of the [switch] leaves behind for the common tail. *)
Record Advance := {
  adv_db : Storage;
  newPhase : Phase;
  newDayNumber : Z;
  newLog : list string;
  adv_narrative : option string
}.

Section Routes.
Context (generateNarrative : NarrativeContext → string → string).
Context (generateGameSummary :
           Winner.t → list Player → list string → string → GameSummary).

(** POST /api/games/:gameId/start *)
Definition startGame (rand : nat → nat) (now : Z) (db : Storage)
    (gameId : string) : Response * Storage :=
  match getGame db gameId with
  | None => (status_json 404 "Game not found", db)
  | Some game =>
      let players := getPlayersByGame db gameId in
      if decide (length players < 4)%nat
      then (status_json 400 "Need at least 4 players to start", db)
      else if negb (forallb Player.isReady players)
      then (status_json 400 "All players must be ready", db)
      else
        let rolesAssigned :=
          assignRoles rand players
            (default (calculateRoleDistribution (Z.of_nat (length players)))
                     (Game.roleDistribution game)) in
        let db1 :=
          updatePlayers RoleAssignment.playerId
            (λ assignment, Player.set_role (Some (RoleAssignment.role assignment)))
            db rolesAssigned in
        let narrative :=
          match truthy (Game.geminiApiKey game) with
          | Some key =>
              generateNarrative
                {| ctx_phase := DAY; ctx_dayNumber := 1;
                   ctx_players := Z.of_nat (length players);
                   ctx_previousEvents := []; ctx_customPrompt := None |} key
          | None =>
              "The game begins in the mysterious village of Shadowbrook. As night falls, an ominous feeling settles over the residents..."
          end in
        let '(updatedGame, db2) :=
          updateGame db1 gameId
            (Game.set_started DAY (Some narrative) (Some 300)
               (Some ["Game started with " +:+ pretty (Z.of_nat (length players))
                        +:+ " players"; narrative]))
            now in
        (json_game updatedGame, db2)
  end.

(** The VOTING case of the [switch]. *)
Definition advanceVoting (db : Storage) (gameId : string) (game : Game)
    (players : list Player) (log0 : list string) : Advance :=
  let alivePlayers := filter (λ p, Player.status p = ALIVE) players in
  let voteCounts := tallyVotes alivePlayers in
  let '(eliminatedPlayer, _) := mostVoted players voteCounts in
  let '(db1, log1) :=
    match eliminatedPlayer with
    | Some e =>
        (snd (updatePlayer db (Player.id e) (Player.set_status ELIMINATED)),
         log0 ++ [Player.name e +:+ " was eliminated by vote"])
    | None => (db, log0 ++ ["No one was eliminated (tie vote)"])
    end in
  let db2 :=
    updatePlayers Player.id
      (λ _ p, Player.set_votedFor None (Player.set_votes 0 p)) db1 alivePlayers in
  let updatedPlayers := getPlayersByGame db2 gameId in
  match checkWinCondition updatedPlayers with
  | Some winner =>
      let log2 := log1 ++ ["Game ended - " +:+ Winner.str winner +:+ " wins!"] in
      {| adv_db := db2; newPhase := ENDED; newDayNumber := Game.dayNumber game;
         newLog := log2;
         adv_narrative :=
           match truthy (Game.geminiApiKey game) with
           | Some key =>
               Some (summary (generateGameSummary winner updatedPlayers log2 key))
           | None => Game.narrative game
           end |}
  | None =>
      {| adv_db := db2; newPhase := NIGHT; newDayNumber := Game.dayNumber game;
         newLog := log1; adv_narrative := Game.narrative game |}
  end.

(** The NIGHT case of the [switch]. *)
Definition advanceNight (db : Storage) (gameId : string) (game : Game)
    (players : list Player) (log0 : list string) : Advance :=
  let nightEvents := processNightActions players in
  let '(db1, log1) := applyNightKills players (db, log0 ++ nightEvents) in
  let db2 :=
    updatePlayers Player.id (λ _, Player.set_action None None) db1 players in
  let playersAfterNight := getPlayersByGame db2 gameId in
  match checkWinCondition playersAfterNight with
  | Some nightWinner =>
      {| adv_db := db2; newPhase := ENDED; newDayNumber := Game.dayNumber game;
         newLog := log1 ++ ["Game ended - " +:+ Winner.str nightWinner +:+ " wins!"];
         adv_narrative := Game.narrative game |}
  | None =>
      {| adv_db := db2; newPhase := DAY; newDayNumber := Game.dayNumber game + 1;
         newLog := log1; adv_narrative := Game.narrative game |}
  end.

(** POST /api/games/:gameId/next-phase *)
Definition nextPhase (now : Z) (db : Storage) (gameId : string)
    : Response * Storage :=
  match getGame db gameId with
  | None => (status_json 404 "Game not found", db)
  | Some game =>
      let players := getPlayersByGame db gameId in
      let log0 := default [] (Game.gameLog game) in
      let adv :=
        match Game.currentPhase game with
        | DAY =>
            {| adv_db := db; newPhase := VOTING;
               newDayNumber := Game.dayNumber game;
               newLog := log0 ++ ["Day " +:+ pretty (Game.dayNumber game)
                                    +:+ " voting phase begins"];
               adv_narrative := Game.narrative game |}
        | VOTING => advanceVoting db gameId game players log0
        | NIGHT => advanceNight db gameId game players log0
        | _ =>
            {| adv_db := db; newPhase := Game.currentPhase game;
               newDayNumber := Game.dayNumber game;
               newLog := log0; adv_narrative := Game.narrative game |}
        end in
      let narrative :=
        match truthy (Game.geminiApiKey game) with
        | Some key =>
            if decide (newPhase adv ≠ ENDED) then
              Some (generateNarrative
                      {| ctx_phase := newPhase adv;
                         ctx_dayNumber := newDayNumber adv;
                         ctx_players :=
                           Z.of_nat (length (filter (λ p, Player.status p = ALIVE)
                                                    players));
                         ctx_previousEvents := slice_last 3 (newLog adv);
                         ctx_customPrompt := None |} key)
            else adv_narrative adv
        | None => adv_narrative adv
        end in
      let '(updatedGame, db') :=
        updateGame (adv_db adv) gameId
          (Game.set_advanced (newPhase adv) (newDayNumber adv)
             (Some (newLog adv)) narrative
             (Some (if decide (newPhase adv = ENDED) then 0 else 300)))
          now in
      (json_game updatedGame, db')
  end.

(** POST /api/games/:gameId/vote, for a body that carries [playerId].

    The three updates are separate statements, with no transaction
    around them.  When the body has no [targetId], the second one is
    [update(players).set({ votedFor: undefined })], which holds no value
    to set: the query builder throws, and the [catch] of the handler
    answers 500 with the first update already stored. *)
Definition castVote (db : Storage) (gameId : string) (playerId : string)
    (targetId : BodyField) : Response * Storage :=
  match getGame db gameId with
  | Some game =>
      if decide (Game.currentPhase game ≠ VOTING)
      then (status_json 400 "Voting not allowed at this time", db)
      else
        match getPlayer db playerId with
        | Some player =>
            if decide (Player.status player ≠ ALIVE)
            then (status_json 400 "Player cannot vote", db)
            else
              (* Remove previous vote *)
              let db1 :=
                match truthy (Player.votedFor player) with
                | Some prev =>
                    match getPlayer db prev with
                    | Some previousTarget =>
                        snd (updatePlayer db prev
                               (Player.set_votes
                                  (Z.max 0 (Player.votes previousTarget - 1))))
                    | None => db
                    end
                | None => db
                end in
              match targetId with
              | missing => (status_json 500 "Failed to cast vote", db1)
              | given targetId =>
                  (* Update player's vote *)
                  let db2 :=
                    snd (updatePlayer db1 playerId (Player.set_votedFor targetId)) in
                  (* Increment target's vote count *)
                  let db3 :=
                    match truthy targetId with
                    | Some tid =>
                        match getPlayer db2 tid with
                        | Some target =>
                            snd (updatePlayer db2 tid
                                   (Player.set_votes (Player.votes target + 1)))
                        | None => db2
                        end
                    | None => db2
                    end in
                  (json_success, db3)
              end
        | None => (status_json 400 "Player cannot vote", db)
        end
  | None => (status_json 400 "Voting not allowed at this time", db)
  end.
End Routes.

(** ** server/storage.ts, the other operations on games and players *)

Definition getGameByRoomCode (db : Storage) (roomCode : string) : option Game :=
  head (filter (λ g, Game.roomCode g = Some roomCode) (games db)).

(** [delete(games).where(id)]; the answer is [rowCount > 0]. *)
Definition deleteGame (db : Storage) (i : string) : bool * Storage :=
  (bool_decide (0 < length (filter (λ g, Game.id g = i) (games db)))%nat,
   {| games := filter (λ g, Game.id g ≠ i) (games db); players := players db |}).

Definition deletePlayer (db : Storage) (i : string) : bool * Storage :=
  (bool_decide (0 < length (filter (λ p, Player.id p = i) (players db)))%nat,
   {| games := games db; players := filter (λ p, Player.id p ≠ i) (players db) |}).

Definition deletePlayersByGame (db : Storage) (gid : string) : Storage :=
  {| games := games db;
     players := filter (λ p, Player.gameId p ≠ gid) (players db) |}.

Module InsertPlayer.
(** [z.infer<typeof insertPlayerSchema>]: the columns of [players]
    without [id] and [joinedAt]; a column with a default may be left
    out. *)
Record t := mk {
  gameId : string;
  name : string;
  role : option Role;
  status : option PlayerStatus;
  isReady : option bool;
  isHost : option bool;
  votes : option Z;
  votedFor : option string;
  lastAction : option string;
  actionTarget : option string
}.

(** [{ ...playerData, gameId, isHost }] *)
Definition with_game_host (gid : string) (host : bool) (d : t) : t :=
  mk gid (name d) (role d) (status d) (isReady d) (Some host) (votes d)
     (votedFor d) (lastAction d) (actionTarget d).
End InsertPlayer.
Abbreviation InsertPlayer := InsertPlayer.t.

(** [insert(players).values(insertPlayer).returning()]: the database
    fills [id] ([gen_random_uuid()], here [newId]), [joinedAt]
    ([now]) and the defaults of the columns left out; the new row is
    last in the table. *)
Definition createPlayer (newId : string) (now : Z) (db : Storage)
    (insertPlayer : InsertPlayer) : Player * Storage :=
  let player :=
    Player.mk newId (InsertPlayer.gameId insertPlayer)
      (InsertPlayer.name insertPlayer) (InsertPlayer.role insertPlayer)
      (default ALIVE (InsertPlayer.status insertPlayer))
      (default false (InsertPlayer.isReady insertPlayer))
      (default false (InsertPlayer.isHost insertPlayer))
      (default 0 (InsertPlayer.votes insertPlayer))
      (InsertPlayer.votedFor insertPlayer)
      (InsertPlayer.lastAction insertPlayer)
      (InsertPlayer.actionTarget insertPlayer) (Some now) in
  (player, {| games := games db; players := players db ++ [player] |}).

(** ** server/routes.ts, the other session handlers *)

Module GameUpdate.
(** [{ hostId }], the update of the join handler. *)
Definition set_hostId (h : string) (g : Game) : Game :=
  Game.mk (Game.id g) (Game.roomCode g) (Game.name g) h (Game.maxPlayers g)
    (Game.currentPhase g) (Game.dayNumber g) (Game.timeRemaining g)
    (Game.isActive g) (Game.geminiApiKey g) (Game.narrative g) (Game.gameLog g)
    (Game.roleDistribution g) (Game.createdAt g) (Game.updatedAt g).

(** [{ currentPhase: ENDED, isActive: false, timeRemaining: 0 }], the
    update of the end handler. *)
Definition set_ended (g : Game) : Game :=
  Game.mk (Game.id g) (Game.roomCode g) (Game.name g) (Game.hostId g)
    (Game.maxPlayers g) ENDED (Game.dayNumber g) (Some 0) false
    (Game.geminiApiKey g) (Game.narrative g) (Game.gameLog g)
    (Game.roleDistribution g) (Game.createdAt g) (Game.updatedAt g).
End GameUpdate.

(** The answer of the join handler: the new player, or a status with a
    message. *)
Inductive JoinResponse :=
  | json_player (p : Player)
  | join_status (code : Z) (message : string).

(** POST /api/games/:gameId/join, after [insertPlayerSchema.parse] has
    accepted the body as [playerData]. *)
Definition joinGame (newId : string) (now : Z) (db : Storage)
    (gameId : string) (playerData : InsertPlayer) : JoinResponse * Storage :=
  match getGame db gameId with
  | None => (join_status 404 "Game not found", db)
  | Some game =>
      if decide (Game.isActive game = false ∨ Game.currentPhase game ≠ LOBBY)
      then (join_status 400 "Cannot join game at this time", db)
      else
        let existingPlayers := getPlayersByGame db gameId in
        if decide (Z.of_nat (length existingPlayers) >= Game.maxPlayers game)
        then (join_status 400 "Game is full", db)
        else
          (* Set first player as host if no host exists *)
          let isHost :=
            bool_decide (length existingPlayers = 0%nat)
            || negb (existsb Player.isHost existingPlayers) in
          let '(player, db1) :=
            createPlayer newId now db
              (InsertPlayer.with_game_host gameId isHost playerData) in
          let db2 :=
            if isHost
            then (updateGame db1 gameId (GameUpdate.set_hostId (Player.id player)) now).2
            else db1 in
          (json_player player, db2)
  end.

(** The table [validActions]; a role without an entry has no list. *)
Definition validActions (r : Role) : option (list string) :=
  match r with
  | DOCTOR => Some ["HEAL"]
  | DETECTIVE => Some ["INVESTIGATE"]
  | MAFIA => Some ["KILL"]
  | VILLAGER => None
  end.

(** [validActions[player.role!]?.includes(action)] *)
Definition actionAllowed (r : option Role) (action : option string) : bool :=
  match r ≫= validActions, action with
  | Some allowed, Some a => bool_decide (a ∈ allowed)
  | _, _ => false
  end.

(** POST /api/games/:gameId/action, for a body that carries
    [playerId] and [targetId] (a string or [null]). *)
Definition takeAction (db : Storage) (gameId : string) (playerId : string)
    (action targetId : option string) : Response * Storage :=
  match getGame db gameId with
  | Some game =>
      if decide (Game.currentPhase game ≠ NIGHT)
      then (status_json 400 "Actions not allowed at this time", db)
      else
        match getPlayer db playerId with
        | Some player =>
            if decide (Player.status player ≠ ALIVE)
            then (status_json 400 "Player cannot take action", db)
            else if negb (actionAllowed (Player.role player) action)
            then (status_json 400 "Invalid action for your role", db)
            else
              (json_success,
               (updatePlayer db playerId (Player.set_action action targetId)).2)
        | None => (status_json 400 "Player cannot take action", db)
        end
  | None => (status_json 400 "Actions not allowed at this time", db)
  end.

(** POST /api/games/:gameId/end *)
Definition endGame (now : Z) (db : Storage) (gameId : string)
    : Response * Storage :=
  match getGame db gameId with
  | None => (status_json 404 "Game not found", db)
  | Some game =>
      let '(updatedGame, db') := updateGame db gameId GameUpdate.set_ended now in
      (json_game updatedGame, db')
  end.

(** ** server/routes.ts, the connection registry

    A [WebSocket] object is identified by a number; [opened] is the set
    of connections whose [readyState] is [OPEN] when a broadcast is
    made.  A broadcast is modelled by the set of connections it sends
    to. *)

Record Hub := {
  gameConnections : gmap string (gset nat);
  playerConnections : gmap string nat
}.

(** The connections [broadcastToGame] sends the message to. *)
Definition broadcastToGame (opened : gset nat) (hub : Hub) (gameId : string)
    : gset nat :=
  match gameConnections hub !! gameId with
  | Some connections => filter (λ ws, ws ∈ opened) connections
  | None => ∅
  end.

(** The 'PLAYER_JOINED' case of the message handler of connection [ws]:
    the new registry and the connections the message is broadcast to. *)
Definition onPlayerJoined (opened : gset nat) (hub : Hub) (ws : nat)
    (gameId : string) (playerId : option string) : Hub * gset nat :=
  match truthy (Some gameId), truthy playerId with
  | Some g, Some p =>
      let hub' :=
        {| gameConnections :=
             <[g := {[ ws ]} ∪ default ∅ (gameConnections hub !! g)]>
               (gameConnections hub);
           playerConnections := <[p := ws]> (playerConnections hub) |} in
      (hub', broadcastToGame opened hub' g)
  | _, _ => (hub, ∅)
  end.

(** The 'close' handler of connection [ws]. *)
Definition onClose (hub : Hub) (ws : nat) : Hub :=
  {| gameConnections :=
       filter (λ kv, kv.2 ≠ ∅) ((λ connections, connections ∖ {[ ws ]})
                                  <$> gameConnections hub);
     playerConnections :=
       filter (λ kv, kv.2 ≠ ws) (playerConnections hub) |}.

(** * Notions used in the statements *)

(** The number of ALIVE players whose role satisfies [P]. *)
Definition aliveCount (P : option Role → Prop) `{!∀ r, Decision (P r)}
    (players : list Player) : nat :=
  length (filter (λ p, Player.status p = ALIVE ∧ P (Player.role p)) players).

(** The sum of the counts of a distribution. *)
Definition distTotal (dist : RoleDistribution) : Z :=
  foldr (λ e acc, e.2 + acc) 0 dist.

(** The role of every slot of the distribution, in the order the slots
    are filled. *)
Fixpoint roleSlots (dist : RoleDistribution) : list Role :=
  match dist with
  | [] => []
  | (r, c) :: rest => replicate (Z.to_nat c) r ++ roleSlots rest
  end.

(** What a run of [updatePlayers] does to one row. *)
Definition updateRow {X} (key : X → string) (upd : X → Player → Player)
    (xs : list X) (p : Player) : Player :=
  foldl (λ p x, if decide (Player.id p = key x) then upd x p else p) p xs.

(** No vote counter is negative. *)
Definition votesNonneg (db : Storage) : Prop :=
  Forall (λ p, 0 ≤ Player.votes p) (players db).

(** A cast-vote request: session, voter, target. *)
Definition VoteRequest : Type := string * string * BodyField.

(** A sequence of cast-vote requests, served one after the other. *)
Definition castVotes (db : Storage) (reqs : list VoteRequest) : Storage :=
  foldl (λ db '(gameId, playerId, targetId),
           (castVote db gameId playerId targetId).2) db reqs.

(** The target a MAFIA KILL action eliminates, if any. *)
Definition killTarget (saves : gset string) (mafia : Player) : option string :=
  match truthy (Player.actionTarget mafia) with
  | Some tgt => if decide (tgt ∉ saves) then Some tgt else None
  | None => None
  end.

(** The elimination set: the identifiers the NIGHT case marks
    ELIMINATED, in the order of the calls. *)
Definition nightKills (players : list Player) : list string :=
  omap (killTarget (doctorSaves players)) (mafiaActions players).

(** The three outputs of night resolution: the event list of
    [processNightActions], the protected-set and the elimination set of
    the NIGHT case. *)
Definition nightResolution (players : list Player)
    : list string * gset string * list string :=
  (processNightActions players, doctorSaves players, nightKills players).

(** What night resolution reads of a participant. *)
Definition nightInput (p : Player) : option Role * option string * option string :=
  (Player.role p, Player.lastAction p, Player.actionTarget p).

(** Two participants look the same to night resolution. *)
Definition sameNightInput (x y : Player) : Prop := nightInput x = nightInput y.

(** The participants with role [r] whose pending action is [a]. *)
Definition roleActions (r : Role) (a : string) (players : list Player)
    : list Player :=
  filter (λ p, Player.role p = Some r ∧ Player.lastAction p = Some a) players.

(** The truthy action targets of a list of participants, in order. *)
Definition actionTargets (players : list Player) : list string :=
  omap (λ p, truthy (Player.actionTarget p)) players.

(** The event [processNightActions] logs for a MAFIA KILL action. *)
Definition killEvent (saves : gset string) (mafia : Player) : option string :=
  match truthy (Player.actionTarget mafia) with
  | Some tgt => Some (if decide (tgt ∉ saves) then evEliminated else evSurvived)
  | None => None
  end.

(** The number of participants whose current vote names [tgt]. *)
Definition ballots (players : list Player) (tgt : string) : nat :=
  length (filter (λ p, truthy (Player.votedFor p) = Some tgt) players).


(** 1 when the vote [o] names [tgt], else 0. *)
Definition names (o : option string) (tgt : string) : Z :=
  if decide (o = Some tgt) then 1 else 0.


(** The pairs of role and action that the action handler accepts. *)
Definition roleActionTable : list (option Role * string) :=
  [(Some DOCTOR, "HEAL"); (Some DETECTIVE, "INVESTIGATE"); (Some MAFIA, "KILL")].

(** The number of hosts in a list of participants. *)
Definition hosts (players : list Player) : nat :=
  length (filter (λ p, Player.isHost p = true) players).

(** The [switch] of the next-phase handler on the stored session. *)
Definition advanceCase
    (generateGameSummary : Winner.t → list Player → list string → string → GameSummary)
    (db : Storage) (gameId : string) (game : Game) : Advance :=
  let players := getPlayersByGame db gameId in
  let log0 := default [] (Game.gameLog game) in
  match Game.currentPhase game with
  | DAY =>
      {| adv_db := db; newPhase := VOTING;
         newDayNumber := Game.dayNumber game;
         newLog := log0 ++ ["Day " +:+ pretty (Game.dayNumber game)
                              +:+ " voting phase begins"];
         adv_narrative := Game.narrative game |}
  | VOTING => advanceVoting generateGameSummary db gameId game players log0
  | NIGHT => advanceNight db gameId game players log0
  | _ =>
      {| adv_db := db; newPhase := Game.currentPhase game;
         newDayNumber := Game.dayNumber game;
         newLog := log0; adv_narrative := Game.narrative game |}
  end.

(** The largest value of an [integer] column, such as [day_number]. *)
Definition int4_max : Z := 2147483647.

(** The phases the next-phase handler can move to from a phase. *)
Definition successors (ph : Phase) : list Phase :=
  match ph with
  | LOBBY => [LOBBY]
  | DAY => [VOTING]
  | VOTING => [NIGHT; ENDED]
  | NIGHT => [DAY; ENDED]
  | ENDED => [ENDED]
  end.

(** [p'] is the participant [p] after some next-phase requests: the
    same identifier, session, name, role, readiness, host flag and join
    time, and the same status unless it became ELIMINATED. *)
Definition sameParticipant (p p' : Player) : Prop :=
  Player.id p' = Player.id p
  ∧ Player.gameId p' = Player.gameId p
  ∧ Player.name p' = Player.name p
  ∧ Player.role p' = Player.role p
  ∧ Player.isReady p' = Player.isReady p
  ∧ Player.isHost p' = Player.isHost p
  ∧ Player.joinedAt p' = Player.joinedAt p
  ∧ (Player.status p' = Player.status p ∨ Player.status p' = ELIMINATED).

(** What a next-phase request never changes of a participant. *)
Definition identity (p : Player)
    : string * string * string * option Role * bool * bool * option Z :=
  (Player.id p, Player.gameId p, Player.name p, Player.role p,
   Player.isReady p, Player.isHost p, Player.joinedAt p).

(** The row update of the VOTING case for the most voted player. *)
Definition voteElimination (eliminatedPlayer : option Player) (q : Player)
    : Player :=
  match eliminatedPlayer with
  | Some e =>
      if decide (Player.id q = Player.id e)
      then Player.set_status ELIMINATED q else q
  | None => q
  end.

(** [{ votes: 0, votedFor: null }] *)
Definition resetVote (p : Player) : Player :=
  Player.set_votedFor None (Player.set_votes 0 p).

(** The connections registered for a session. *)
Definition connectionsOf (hub : Hub) (gameId : string) : gset nat :=
  default ∅ (gameConnections hub !! gameId).

(** ** Sample data *)

Module Sample.
(** A ready player of game "g1" with no vote and no action. *)
Definition player (i : string) (r : Role) (s : PlayerStatus) : Player :=
  Player.mk i "g1" ("player " +:+ i) (Some r) s true (bool_decide (i = "a")) 0
            None None None None.

Definition voting (tgt : string) (p : Player) : Player :=
  Player.set_votedFor (Some tgt) p.

Definition acting (a tgt : string) (p : Player) : Player :=
  Player.set_action (Some a) (Some tgt) p.

Definition game (ph : Phase) (day : Z) : Game :=
  Game.mk "g1" (Some "ABC123") "village" "a" 8 ph day (Some 300) true None
          (Some "") (Some []) None (Some 0) (Some 0).

(** No text-generation key is configured in the samples, so the two
    collaborators are never consulted; these stand for them. *)
Definition narrate (_ : NarrativeContext) (_ : string) : string :=
  "The shadows of Shadowbrook grow deeper as the mystery unfolds...".
Definition summarise (w : Winner.t) (_ : list Player) (_ : list string)
    (_ : string) : GameSummary :=
  {| summary_winner := Winner.str w; summary := ""; keyMoments := [] |}.

Definition statusOf (db : Storage) (i : string) : option PlayerStatus :=
  Player.status <$> getPlayer db i.
End Sample.

(** ** Scenarios *)

Module TieVote.
(** Four alive voters: "a" and "c" vote for "b", "b" and "d" vote for
    "a"; the tally is b:2, a:2. *)
Definition db : Storage :=
  {| games := [Sample.game VOTING 1];
     players := [Sample.voting "b" (Sample.player "a" MAFIA ALIVE);
                 Sample.voting "a" (Sample.player "b" VILLAGER ALIVE);
                 Sample.voting "b" (Sample.player "c" DOCTOR ALIVE);
                 Sample.voting "a" (Sample.player "d" DETECTIVE ALIVE)] |}.

Definition after : Response * Storage :=
  nextPhase Sample.narrate Sample.summarise 10 db "g1".
End TieVote.

Module EndedSession.
(** A session that was ended at time 5, on its second day. *)
Definition game : Game :=
  Game.mk "g1" (Some "ABC123") "village" "a" 8 ENDED 2 (Some 0) false None
          (Some "") (Some ["Game ended - MAFIA wins!"]) None (Some 0) (Some 5).

Definition db : Storage :=
  {| games := [game];
     players := [Sample.player "a" MAFIA ALIVE;
                 Sample.player "b" VILLAGER ELIMINATED] |}.

Definition after : Response * Storage :=
  nextPhase Sample.narrate Sample.summarise 10 db "g1".
End EndedSession.

Module Restart.
(** Four ready players in a session that is in its third NIGHT. *)
Definition db : Storage :=
  {| games := [Sample.game NIGHT 3];
     players := [Sample.player "a" MAFIA ALIVE;
                 Sample.player "b" VILLAGER ALIVE;
                 Sample.player "c" DOCTOR ALIVE;
                 Sample.player "d" DETECTIVE ELIMINATED] |}.

Definition after : Response * Storage :=
  startGame Sample.narrate (λ i, i) 10 db "g1".
End Restart.

Module Revote.
(** "a" first votes for "b", then changes to "c", then to nobody; the
    counter of "c" was already 0 when "d", whose stored vote names
    "c", votes again. *)
Definition db : Storage :=
  {| games := [Sample.game VOTING 1];
     players := [Sample.player "a" MAFIA ALIVE;
                 Sample.player "b" VILLAGER ALIVE;
                 Sample.player "c" DOCTOR ALIVE;
                 Sample.voting "c" (Sample.player "d" DETECTIVE ALIVE)] |}.

Definition reqs : list VoteRequest :=
  [("g1", "a", given (Some "b")); ("g1", "d", given (Some "b"));
   ("g1", "a", given (Some "c")); ("g1", "a", given None)].
End Revote.

Module TwoAttackers.
(** Two MAFIA attack "c" and "d"; the DOCTOR heals "c". *)
Definition db : Storage :=
  {| games := [Sample.game NIGHT 1];
     players := [Sample.acting "KILL" "c" (Sample.player "a" MAFIA ALIVE);
                 Sample.acting "KILL" "d" (Sample.player "b" MAFIA ALIVE);
                 Sample.acting "HEAL" "c" (Sample.player "c" DOCTOR ALIVE);
                 Sample.player "d" DETECTIVE ALIVE;
                 Sample.player "e" VILLAGER ALIVE;
                 Sample.player "f" VILLAGER ALIVE;
                 Sample.player "g" VILLAGER ALIVE] |}.

Definition after : Response * Storage :=
  nextPhase Sample.narrate Sample.summarise 10 db "g1".
End TwoAttackers.

Module StaleHeal.
(** The DOCTOR "c" is ELIMINATED but still holds a HEAL on "d"; the
    MAFIA attacks "d". *)
Definition ps : list Player :=
  [Sample.acting "KILL" "d" (Sample.player "a" MAFIA ALIVE);
   Sample.player "b" VILLAGER ALIVE;
   Sample.acting "HEAL" "d" (Sample.player "c" DOCTOR ELIMINATED);
   Sample.player "d" DETECTIVE ALIVE;
   Sample.player "e" VILLAGER ALIVE].

Definition alive : list Player :=
  filter (λ p, Player.status p = ALIVE) ps.

Definition db : Storage :=
  {| games := [Sample.game NIGHT 1]; players := ps |}.

Definition after : Response * Storage :=
  nextPhase Sample.narrate Sample.summarise 10 db "g1".
End StaleHeal.

Module Replay.
(** Requests that lead to the store of a night in which an ELIMINATED
    DOCTOR holds a HEAL.  In the first NIGHT the DOCTOR "c" heals "d";
    a start request is then served, which moves the session to DAY
    without clearing the pending actions; with the draw used here it
    makes "e" the MAFIA and leaves "c" the DOCTOR.  The session goes on
    to VOTING, "c" is voted out by "a", "b" and "d", the session goes
    on to NIGHT, and "e" attacks "d". *)
Definition db0 : Storage :=
  {| games := [Sample.game NIGHT 1];
     players := [Sample.player "a" MAFIA ALIVE;
                 Sample.player "b" VILLAGER ALIVE;
                 Sample.player "c" DOCTOR ALIVE;
                 Sample.player "d" DETECTIVE ALIVE;
                 Sample.player "e" VILLAGER ALIVE] |}.

Definition advance (db : Storage) : Response * Storage :=
  nextPhase Sample.narrate Sample.summarise 10 db "g1".

Definition heal : Response * Storage :=
  takeAction db0 "g1" "c" (Some "HEAL") (Some "d").
Definition restart : Response * Storage :=
  startGame Sample.narrate (λ i, i) 10 heal.2 "g1".
Definition toVoting : Response * Storage := advance restart.2.
Definition vote1 : Response * Storage :=
  castVote toVoting.2 "g1" "a" (given (Some "c")).
Definition vote2 : Response * Storage :=
  castVote vote1.2 "g1" "b" (given (Some "c")).
Definition vote3 : Response * Storage :=
  castVote vote2.2 "g1" "d" (given (Some "c")).
Definition toNight : Response * Storage := advance vote3.2.
Definition attack : Response * Storage :=
  takeAction toNight.2 "g1" "e" (Some "KILL") (Some "d").

(** The answers to the requests, in order. *)
Definition answers : list Response :=
  [heal.1; restart.1; toVoting.1; vote1.1; vote2.1; vote3.1; toNight.1; attack.1].

(** The participants the NIGHT case reads, and the store it leaves. *)
Definition night : list Player := getPlayersByGame attack.2 "g1".
Definition dawn : Storage := (advance attack.2).2.
End Replay.

Module CleanNight.
(** The ELIMINATED participant "e" holds no pending action. *)
Definition ps : list Player :=
  [Sample.acting "KILL" "d" (Sample.player "a" MAFIA ALIVE);
   Sample.player "b" VILLAGER ALIVE;
   Sample.acting "HEAL" "b" (Sample.player "c" DOCTOR ALIVE);
   Sample.acting "INVESTIGATE" "a" (Sample.player "d" DETECTIVE ALIVE);
   Sample.player "e" VILLAGER ELIMINATED].
End CleanNight.

Module FreshVoting.
(** A session in VOTING in which nobody has voted yet. *)
Definition db : Storage :=
  {| games := [Sample.game VOTING 1];
     players := [Sample.player "a" MAFIA ALIVE;
                 Sample.player "b" VILLAGER ALIVE;
                 Sample.player "c" DOCTOR ALIVE;
                 Sample.player "d" DETECTIVE ELIMINATED] |}.
End FreshVoting.

Module QuietNight.
(** A session in NIGHT in which nobody has acted yet. *)
Definition db : Storage :=
  {| games := [Sample.game NIGHT 1];
     players := [Sample.player "a" MAFIA ALIVE;
                 Sample.player "b" VILLAGER ALIVE;
                 Sample.player "c" DOCTOR ALIVE;
                 Sample.player "d" DETECTIVE ALIVE;
                 Sample.player "e" VILLAGER ALIVE] |}.
End QuietNight.

Module Lobby.
(** An empty session in LOBBY, and a request body that names another
    session and asks not to be host. *)
Definition db : Storage :=
  {| games := [Sample.game LOBBY 1]; players := [] |}.

Definition eve : InsertPlayer :=
  InsertPlayer.mk "other" "Eve" None None None (Some false) None None None None.
End Lobby.

(** * Properties *)

(** Closes a decidable closed goal by evaluating its decision
    procedure. *)
Ltac by_evaluation := apply (bool_decide_unpack _); vm_compute; exact I.

(** ** Win condition *)

Lemma aliveCount_filter (Q : Player → Prop) `{!∀ p, Decision (Q p)}
    (P : option Role → Prop) `{!∀ r, Decision (P r)} (players : list Player) :
  (∀ p, Q p ↔ P (Player.role p)) →
  length (filter Q (filter (λ p, Player.status p = ALIVE) players))
  = aliveCount P players.
Proof.
  intros HQ. unfold aliveCount. f_equal.
  rewrite list_filter_filter. apply list_filter_iff. intros p. rewrite HQ. tauto.
Qed.

Lemma checkWinCondition_unfold (players : list Player) :
  checkWinCondition players =
    if decide (aliveCount (λ r, r = Some MAFIA) players = 0%nat)
    then Some Winner.VILLAGERS
    else if decide (aliveCount (λ r, r ≠ Some MAFIA) players
                    ≤ aliveCount (λ r, r = Some MAFIA) players)%nat
         then Some Winner.MAFIA
         else None.
Proof.
  unfold checkWinCondition.
  rewrite (aliveCount_filter _ (λ r, r = Some MAFIA)) by done.
  rewrite (aliveCount_filter _ (λ r, r ≠ Some MAFIA)) by done.
  done.
Qed.

(** C3. Over the ALIVE players only: the villagers win exactly when no
    Mafia is alive; the Mafia wins exactly when some Mafia is alive and
    the alive Mafia are at least as many as the alive non-Mafia (a tie
    goes to the Mafia); in every other case there is no winner. *)
Theorem checkWinCondition_spec (players : list Player) :
  let mafia := aliveCount (λ r, r = Some MAFIA) players in
  let others := aliveCount (λ r, r ≠ Some MAFIA) players in
  (checkWinCondition players = Some Winner.VILLAGERS ↔ mafia = 0%nat)
  ∧ (checkWinCondition players = Some Winner.MAFIA
     ↔ mafia ≠ 0%nat ∧ (others ≤ mafia)%nat)
  ∧ (checkWinCondition players = None
     ↔ mafia ≠ 0%nat ∧ (mafia < others)%nat).
Proof.
  intros mafia others. rewrite checkWinCondition_unfold.
  fold mafia others.
  destruct (decide (mafia = 0%nat)) as [H0|H0];
    [|destruct (decide (others ≤ mafia)%nat) as [Hle|Hle]];
    repeat split; intros; try done; try lia; naive_solver lia.
Qed.

Example win_no_mafia :
  checkWinCondition [Sample.player "a" VILLAGER ALIVE;
                     Sample.player "b" MAFIA ELIMINATED]
  = Some Winner.VILLAGERS.
Proof. reflexivity. Qed.

Example win_tie_favours_mafia :
  checkWinCondition [Sample.player "a" MAFIA ALIVE; Sample.player "b" MAFIA ALIVE;
                     Sample.player "c" DOCTOR ALIVE; Sample.player "d" VILLAGER ALIVE]
  = Some Winner.MAFIA.
Proof. reflexivity. Qed.

Example win_undecided :
  checkWinCondition [Sample.player "a" MAFIA ALIVE; Sample.player "b" VILLAGER ALIVE;
                     Sample.player "c" DOCTOR ALIVE; Sample.player "d" VILLAGER ALIVE;
                     Sample.player "e" DETECTIVE ALIVE]
  = None.
Proof. reflexivity. Qed.

(** ** Default role distribution *)

(** C8. For N >= 4 players the default distribution has
    max(1, floor(N/3)) mafia, one doctor, one detective and
    max(1, N - floor(N/3) - 2) villagers, and the four counts add up to
    N; for N = 4 every role has count 1. *)
Theorem calculateRoleDistribution_spec (N : Z) :
  4 ≤ N →
  let dist := calculateRoleDistribution N in
  distCount dist MAFIA = Z.max 1 (N `div` 3)
  ∧ distCount dist DOCTOR = 1
  ∧ distCount dist DETECTIVE = 1
  ∧ distCount dist VILLAGER = Z.max 1 (N - N `div` 3 - 2)
  ∧ (distCount dist VILLAGER + distCount dist DOCTOR
     + distCount dist DETECTIVE + distCount dist MAFIA = N)
  ∧ distTotal dist = N
  ∧ (N = 4 → dist = [(VILLAGER, 1); (DOCTOR, 1); (DETECTIVE, 1); (MAFIA, 1)]).
Proof.
  intros HN dist. subst dist. unfold calculateRoleDistribution, distTotal.
  cbn [distCount foldr snd].
  assert (Hdiv : 1 ≤ N `div` 3) by (apply Z.div_le_lower_bound; lia).
  assert (Hrem : 3 * (N `div` 3) ≤ N) by (apply Z.mul_div_le; lia).
  split_and!; repeat case_decide; try done; try lia.
  intros ->. reflexivity.
Qed.

Lemma calculateRoleDistribution_witness :
  4 ≤ 7
  ∧ distCount (calculateRoleDistribution 7) MAFIA = 2
  ∧ distCount (calculateRoleDistribution 7) VILLAGER = 3
  ∧ distTotal (calculateRoleDistribution 7) = 7.
Proof.
  split; [lia|].
  destruct (calculateRoleDistribution_spec 7 ltac:(lia))
    as (Hm & _ & _ & Hv & _ & Ht & _).
  rewrite Hm, Hv, Ht. split_and!; reflexivity.
Defined.

(** ** Valid targets *)

(** C9. A valid target is never the acting player, is ALIVE, comes from
    the player list, and is not MAFIA when the actor is MAFIA. *)
Theorem getValidTargets_spec (player : Player) (allPlayers : list Player)
    (phase : string) (t : Player) :
  t ∈ getValidTargets player allPlayers phase →
  t ∈ allPlayers
  ∧ Player.id t ≠ Player.id player
  ∧ Player.status t = ALIVE
  ∧ (Player.role player = Some MAFIA → Player.role t ≠ Some MAFIA).
Proof.
  unfold getValidTargets.
  destruct (Player.role player) as [[]|] eqn:Hr; case_decide;
    rewrite ?list_elem_of_filter, ?elem_of_nil; try tauto;
    try (intros ([Halive Hid] & Hin); split_and!; done).
Qed.

Lemma getValidTargets_witness :
  let doc := Player.mk "d" "g" "Dora" (Some DOCTOR) ALIVE true false 0 None None None None in
  let maf := Player.mk "m" "g" "Max" (Some MAFIA) ALIVE true false 0 None None None None in
  maf ∈ getValidTargets doc [doc; maf] "NIGHT"
  ∧ Player.id maf ≠ Player.id doc ∧ Player.status maf = ALIVE.
Proof.
  intros doc maf.
  assert (Hin : maf ∈ getValidTargets doc [doc; maf] "NIGHT")
    by (vm_compute; apply list_elem_of_here).
  split; [exact Hin|].
  destruct (getValidTargets_spec doc [doc; maf] "NIGHT" maf Hin) as (_ & Hid & Hst & _).
  split; assumption.
Defined.

(** ** Role assignment *)

Lemma swap_Permutation {A} (a : list A) (i j : nat) : swap a i j ≡ₚ a.
Proof.
  unfold swap.
  destruct (a !! i) as [x|] eqn:Hi; [|done].
  destruct (a !! j) as [y|] eqn:Hj; [|done].
  by apply Permutation_insert_swap.
Qed.

Lemma shuffleFrom_Permutation {A} (rand : nat → nat) (i : nat) (a : list A) :
  shuffleFrom rand i a ≡ₚ a.
Proof.
  revert a. induction i as [|i IH]; intros a; simpl; [done|].
  rewrite IH. apply swap_Permutation.
Qed.

Lemma shuffle_Permutation {A} (rand : nat → nat) (a : list A) :
  shuffle rand a ≡ₚ a.
Proof. apply shuffleFrom_Permutation. Qed.

Lemma assignLoop_spec (avail : list Player) (r : Role) (n : nat)
    (assignments : list RoleAssignment) (idx : nat) :
  assignLoop avail r n (assignments, idx)
  = (assignments
       ++ ((λ p, RoleAssignment.mk (Player.id p) r) <$> take n (drop idx avail)),
     (idx + length (take n (drop idx avail)))%nat).
Proof.
  revert assignments idx. induction n as [|n IH]; intros assignments idx; simpl.
  - by rewrite app_nil_r, Nat.add_0_r.
  - destruct (avail !! idx) as [p|] eqn:Hp.
    + rewrite IH, (drop_S _ _ _ Hp). simpl. rewrite <- app_assoc. simpl.
      f_equal. lia.
    + apply lookup_ge_None_1 in Hp.
      rewrite IH, !drop_ge by lia. by rewrite take_nil.
Qed.

Lemma assignFold_spec (avail : list Player) (dist : RoleDistribution)
    (assignments : list RoleAssignment) (idx : nat) :
  fst (foldl (λ st '(r, count), assignLoop avail r (Z.to_nat count) st)
             (assignments, idx) dist)
  = assignments ++ zip_with (λ p r, RoleAssignment.mk (Player.id p) r)
                            (drop idx avail) (roleSlots dist).
Proof.
  revert assignments idx.
  induction dist as [|[r c] rest IH]; intros assignments idx; simpl.
  - by rewrite zip_with_nil_r, app_nil_r.
  - rewrite assignLoop_spec, IH, <- app_assoc. f_equal.
    rewrite zip_with_app_r, length_replicate. f_equal.
    + rewrite zip_with_replicate_r; [done|].
      rewrite length_take. lia.
    + f_equal. rewrite drop_drop, length_take, length_drop.
      destruct (decide (Z.to_nat c ≤ length avail - idx)%nat).
      * f_equal. lia.
      * rewrite !drop_ge; [done|lia..].
Qed.

Lemma assignRoles_zip (rand : nat → nat) (players : list Player)
    (dist : RoleDistribution) :
  assignRoles rand players dist
  = zip_with (λ p r, RoleAssignment.mk (Player.id p) r)
             (shuffle rand players) (roleSlots dist).
Proof. unfold assignRoles. by rewrite assignFold_spec. Qed.

Lemma roleSlots_length (dist : RoleDistribution) :
  Forall (λ e, 0 ≤ e.2) dist →
  Z.of_nat (length (roleSlots dist)) = distTotal dist.
Proof.
  unfold distTotal.
  induction 1 as [|[r c] rest Hc _ IH]; simpl in *; [done|].
  rewrite length_app, length_replicate. lia.
Qed.

Lemma filter_replicate_eq (r r' : Role) (n : nat) :
  filter (λ x, x = r) (replicate n r')
  = if decide (r' = r) then replicate n r' else [].
Proof.
  induction n as [|n IH]; simpl.
  - by case_decide.
  - rewrite filter_cons, IH. by case_decide.
Qed.

Lemma roleSlots_absent (dist : RoleDistribution) (r : Role) :
  r ∉ dist.*1 → filter (λ x, x = r) (roleSlots dist) = [].
Proof.
  induction dist as [|[r' c] rest IH]; simpl; [done|].
  rewrite not_elem_of_cons. intros [Hne Hrest].
  rewrite filter_app, filter_replicate_eq, decide_False, IH by done. done.
Qed.

Lemma distCount_absent (dist : RoleDistribution) (r : Role) :
  r ∉ dist.*1 → distCount dist r = 0.
Proof.
  induction dist as [|[r' c] rest IH]; simpl; [done|].
  rewrite not_elem_of_cons. intros [Hne Hrest].
  rewrite decide_False by done. auto.
Qed.

Lemma roleSlots_count (dist : RoleDistribution) (r : Role) :
  NoDup dist.*1 →
  Forall (λ e, 0 ≤ e.2) dist →
  Z.of_nat (length (filter (λ x, x = r) (roleSlots dist))) = distCount dist r.
Proof.
  induction dist as [|[r' c] rest IH]; simpl; [done|].
  rewrite NoDup_cons, Forall_cons. simpl. intros [Hnotin Hnd] [Hc Hrest].
  rewrite filter_app, filter_replicate_eq, length_app.
  destruct (decide (r' = r)) as [->|Hne].
  - rewrite roleSlots_absent, length_replicate by done. simpl. lia.
  - simpl. by apply IH.
Qed.

Lemma assignments_playerIds (avail : list Player) (slots : list Role) :
  RoleAssignment.playerId
    <$> zip_with (λ p r, RoleAssignment.mk (Player.id p) r) avail slots
  = take (length slots) (Player.id <$> avail).
Proof.
  rewrite <- (zip_with_fmap_l RoleAssignment.mk Player.id).
  rewrite <- zip_with_take_l.
  apply fmap_zip_with_l; [done|]. rewrite length_take. lia.
Qed.

Lemma assignments_roles (avail : list Player) (slots : list Role) :
  (length slots ≤ length avail)%nat →
  RoleAssignment.role
    <$> zip_with (λ p r, RoleAssignment.mk (Player.id p) r) avail slots
  = slots.
Proof.
  intros Hlen.
  rewrite <- (zip_with_fmap_l RoleAssignment.mk Player.id).
  apply fmap_zip_with_r; [done|]. by rewrite length_fmap.
Qed.

Lemma filter_role_fmap (r : Role) (l : list RoleAssignment) :
  length (filter (λ a, RoleAssignment.role a = r) l)
  = length (filter (λ x, x = r) (RoleAssignment.role <$> l)).
Proof.
  induction l as [|a l IH]; [done|].
  rewrite fmap_cons, !filter_cons. case_decide; simpl; by rewrite IH.
Qed.

(** C7. When the distribution's counts (non-negative, one entry per
    role) add up to N and N is at most the number of players (whose
    identifiers are distinct, being primary keys), [assignRoles] returns
    exactly N assignments, no identifier is assigned twice, every
    assigned identifier is a player's, and each role is assigned as many
    times as the distribution says, whatever the shuffle draws. *)
Theorem assignRoles_spec (rand : nat → nat) (players : list Player)
    (dist : RoleDistribution) (N : Z) :
  NoDup (Player.id <$> players) →
  NoDup dist.*1 →
  Forall (λ e, 0 ≤ e.2) dist →
  distTotal dist = N →
  N ≤ Z.of_nat (length players) →
  let assignments := assignRoles rand players dist in
  Z.of_nat (length assignments) = N
  ∧ NoDup (RoleAssignment.playerId <$> assignments)
  ∧ (∀ a, a ∈ assignments → RoleAssignment.playerId a ∈ Player.id <$> players)
  ∧ (∀ r, Z.of_nat (length (filter (λ a, RoleAssignment.role a = r) assignments))
          = distCount dist r).
Proof.
  intros Hids Hkeys Hpos Hsum HN assignments. subst assignments.
  rewrite assignRoles_zip.
  pose proof (shuffle_Permutation rand players) as Hperm.
  pose proof (roleSlots_length dist Hpos) as Hslots.
  assert (Hlen : (length (roleSlots dist) ≤ length (shuffle rand players))%nat).
  { rewrite Hperm. lia. }
  split_and!.
  - rewrite length_zip_with_r by done. lia.
  - rewrite assignments_playerIds.
    eapply sublist_NoDup; [|apply sublist_take]. by rewrite Hperm.
  - intros a Ha.
    apply (list_elem_of_fmap_2 RoleAssignment.playerId) in Ha.
    rewrite assignments_playerIds in Ha.
    apply subseteq_take in Ha. by rewrite Hperm in Ha.
  - intros r. rewrite filter_role_fmap, assignments_roles by done.
    by apply roleSlots_count.
Qed.

Lemma assignRoles_witness :
  let ps := [Sample.player "a" VILLAGER ALIVE; Sample.player "b" VILLAGER ALIVE;
             Sample.player "c" VILLAGER ALIVE; Sample.player "d" VILLAGER ALIVE;
             Sample.player "e" VILLAGER ALIVE] in
  let assignments := assignRoles (λ i, 7 * i)%nat ps (calculateRoleDistribution 5) in
  Z.of_nat (length assignments) = 5
  ∧ NoDup (RoleAssignment.playerId <$> assignments)
  ∧ Z.of_nat (length (filter (λ a, RoleAssignment.role a = MAFIA) assignments)) = 1.
Proof.
  intros ps assignments.
  destruct (assignRoles_spec (λ i, 7 * i)%nat ps (calculateRoleDistribution 5) 5)
    as (Hlen & Hnd & _ & Hcount).
  - by_evaluation.
  - by_evaluation.
  - by_evaluation.
  - reflexivity.
  - vm_compute. discriminate.
  - split_and!; [exact Hlen | exact Hnd | exact (Hcount MAFIA)].
Defined.

(** ** Vote tabulation *)

(** C1, evaluated on a tie.  With the tally b:2, a:2 the maximum is
    shared by two targets, yet the VOTING case eliminates "b", the
    first target of the tally; no "tie vote" entry is logged. *)
Theorem vote_tie_eliminates_first_target :
  tallyVotes (players TieVote.db) = [("b", 2); ("a", 2)]
  ∧ Sample.statusOf TieVote.db "b" = Some ALIVE
  ∧ Sample.statusOf (TieVote.after.2) "b" = Some ELIMINATED
  ∧ Sample.statusOf (TieVote.after.2) "a" = Some ALIVE
  ∧ (getGame (TieVote.after.2) "g1" ≫= Game.gameLog)
    = Some ["player b was eliminated by vote"].
Proof. by vm_compute. Qed.

Example vote_majority_eliminated :
  let db := {| games := [Sample.game VOTING 1];
               players := [Sample.voting "b" (Sample.player "a" MAFIA ALIVE);
                           Sample.voting "a" (Sample.player "b" VILLAGER ALIVE);
                           Sample.voting "a" (Sample.player "c" DOCTOR ALIVE);
                           Sample.player "d" DETECTIVE ALIVE] |} in
  let after := nextPhase Sample.narrate Sample.summarise 10 db "g1" in
  tallyVotes (players db) = [("b", 1); ("a", 2)]
  ∧ Sample.statusOf (after.2) "a" = Some ELIMINATED
  ∧ Sample.statusOf (after.2) "b" = Some ALIVE
  ∧ (Player.votedFor <$> players (after.2)) = [None; None; None; None].
Proof. by vm_compute. Qed.

Example vote_none_cast :
  let db := {| games := [Sample.game VOTING 1];
               players := [Sample.player "a" MAFIA ALIVE;
                           Sample.player "b" VILLAGER ALIVE;
                           Sample.player "c" DOCTOR ALIVE] |} in
  let after := nextPhase Sample.narrate Sample.summarise 10 db "g1" in
  (Player.status <$> players (after.2)) = [ALIVE; ALIVE; ALIVE]
  ∧ (getGame (after.2) "g1" ≫= Game.gameLog)
    = Some ["No one was eliminated (tie vote)"].
Proof. by vm_compute. Qed.

(** ** The record store *)

Lemma filter_fmap_update {A} (key : A → string) (upd : A → A) (i : string)
    (l : list A) :
  (∀ x, key (upd x) = key x) →
  filter (λ x, key x = i) ((λ x, if decide (key x = i) then upd x else x) <$> l)
  = upd <$> filter (λ x, key x = i) l.
Proof.
  intros Hkey. induction l as [|x l IH]; [done|].
  rewrite fmap_cons, !filter_cons.
  destruct (decide (key x = i)) as [Hx|Hx].
  - rewrite decide_True by (by rewrite Hkey). by rewrite fmap_cons, IH.
  - by rewrite decide_False, IH by done.
Qed.

Lemma updateGame_returns (db : Storage) (i : string) (updates : Game → Game)
    (now : Z) (game : Game) :
  getGame db i = Some game →
  (updateGame db i updates now).1 = Some (Game.set_updatedAt now (updates game)).
Proof.
  unfold getGame, updateGame. simpl.
  destruct (filter _ (games db)); [done|]. simpl. by intros [= ->].
Qed.

Lemma updateGame_getGame (db : Storage) (i : string) (updates : Game → Game)
    (now : Z) :
  (∀ g, Game.id (updates g) = Game.id g) →
  getGame (updateGame db i updates now).2 i = (updateGame db i updates now).1.
Proof.
  intros Hid. unfold getGame, updateGame. simpl.
  by rewrite (filter_fmap_update Game.id) by (intros g; apply Hid).
Qed.

Lemma updateGame_players (db : Storage) (i : string) (updates : Game → Game)
    (now : Z) :
  players (updateGame db i updates now).2 = players db.
Proof. done. Qed.

Lemma updateGame_others (db : Storage) (i : string) (updates : Game → Game)
    (now : Z) (k : nat) (g : Game) :
  games db !! k = Some g → Game.id g ≠ i →
  games (updateGame db i updates now).2 !! k = Some g.
Proof.
  intros Hk Hne. unfold updateGame. simpl.
  rewrite list_lookup_fmap, Hk. simpl. by rewrite decide_False.
Qed.

Lemma updateRow_cons {X} (key : X → string) (upd : X → Player → Player)
    (x : X) (xs : list X) (p : Player) :
  updateRow key upd (x :: xs) p
  = updateRow key upd xs (if decide (Player.id p = key x) then upd x p else p).
Proof. done. Qed.

Lemma updatePlayers_games {X} (key : X → string) (upd : X → Player → Player)
    (db : Storage) (xs : list X) :
  games (updatePlayers key upd db xs) = games db.
Proof.
  revert db. induction xs as [|x xs IH]; intros db; [done|].
  simpl. by rewrite IH.
Qed.

Lemma updatePlayers_players {X} (key : X → string) (upd : X → Player → Player)
    (db : Storage) (xs : list X) :
  players (updatePlayers key upd db xs) = updateRow key upd xs <$> players db.
Proof.
  revert db. induction xs as [|x xs IH]; intros db; simpl.
  - by rewrite list_fmap_id.
  - rewrite IH. simpl. rewrite <- list_fmap_compose. done.
Qed.

(** ** Advancing an ENDED session *)

(** C2 as stated fails: advancing an ENDED session is answered with
    the session itself, not with an error, and the stored session
    changes (its last-modified time moves from 5 to 10). *)
Lemma nextPhase_ENDED_not_rejected :
  (∀ code message, EndedSession.after.1 ≠ status_json code message)
  ∧ EndedSession.after.2 ≠ EndedSession.db.
Proof.
  split; [by vm_compute|].
  intros Hsame.
  assert (H : Game.updatedAt <$> getGame (EndedSession.after.2) "g1"
              = Game.updatedAt <$> getGame EndedSession.db "g1")
    by (by rewrite Hsame).
  vm_compute in H. discriminate.
Qed.

(** C2, amended.  Advancing a session whose phase is ENDED is accepted:
    the answer is the stored session, whose countdown is 0, whose
    last-modified time is the time of the call, whose log holds the
    entries it had (an unset log becomes the empty list), and whose
    every other field is as before: phase, day counter, narrative,
    activity flag, identifier, room code, name, host, capacity,
    text-generation key, role distribution and creation time.  No
    participant and no other session changes. *)
Theorem nextPhase_ENDED
    (generateNarrative : NarrativeContext → string → string)
    (generateGameSummary : Winner.t → list Player → list string → string → GameSummary)
    (now : Z) (db : Storage) (gameId : string) (game : Game) :
  getGame db gameId = Some game →
  Game.currentPhase game = ENDED →
  let r := nextPhase generateNarrative generateGameSummary now db gameId in
  ∃ game',
    r.1 = json_game (Some game')
    ∧ getGame r.2 gameId = Some game'
    ∧ players r.2 = players db
    ∧ (∀ k g, games db !! k = Some g → Game.id g ≠ gameId →
              games r.2 !! k = Some g)
    ∧ Game.currentPhase game' = ENDED
    ∧ Game.dayNumber game' = Game.dayNumber game
    ∧ Game.gameLog game' = Some (default [] (Game.gameLog game))
    ∧ Game.narrative game' = Game.narrative game
    ∧ Game.isActive game' = Game.isActive game
    ∧ Game.timeRemaining game' = Some 0
    ∧ Game.updatedAt game' = Some now
    ∧ Game.id game' = Game.id game
    ∧ Game.roomCode game' = Game.roomCode game
    ∧ Game.name game' = Game.name game
    ∧ Game.hostId game' = Game.hostId game
    ∧ Game.maxPlayers game' = Game.maxPlayers game
    ∧ Game.geminiApiKey game' = Game.geminiApiKey game
    ∧ Game.roleDistribution game' = Game.roleDistribution game
    ∧ Game.createdAt game' = Game.createdAt game.
Proof.
  intros Hget Hphase r. subst r. unfold nextPhase. rewrite Hget, Hphase.
  cbn [adv_db newPhase newDayNumber newLog adv_narrative].
  destruct (decide (ENDED ≠ ENDED)) as [Hc|_]; [done|].
  destruct (decide (ENDED = ENDED)) as [_|Hc]; [|done].
  set (narrative := match truthy (Game.geminiApiKey game) with
                    | Some _ => Game.narrative game
                    | None => Game.narrative game
                    end).
  assert (Hn : narrative = Game.narrative game)
    by (subst narrative; by destruct (truthy _)).
  clearbody narrative. subst narrative.
  set (updates := Game.set_advanced _ _ _ _ _).
  destruct (updateGame db gameId updates now) as [updatedGame db'] eqn:Hupd.
  assert (Hret := updateGame_returns db gameId updates now game Hget).
  assert (Hidp : ∀ g, Game.id (updates g) = Game.id g) by done.
  assert (Hgg := updateGame_getGame db gameId updates now Hidp).
  assert (Hoth := updateGame_others db gameId updates now).
  rewrite Hupd in Hret, Hgg, Hoth. simpl in Hret, Hgg, Hoth. subst updatedGame.
  eexists. split; [done|]. split; [exact Hgg|].
  split; [by inversion Hupd|]. split; [exact Hoth|].
  by split_and!.
Qed.

Lemma nextPhase_ENDED_witness :
  ∃ game',
    EndedSession.after.1 = json_game (Some game')
    ∧ getGame (EndedSession.after.2) "g1" = Some game'
    ∧ Game.currentPhase game' = ENDED
    ∧ Game.timeRemaining game' = Some 0
    ∧ Game.updatedAt game' = Some 10
    ∧ Game.name game' = "village"
    ∧ Game.roomCode game' = Some "ABC123".
Proof.
  destruct (nextPhase_ENDED Sample.narrate Sample.summarise 10 EndedSession.db
              "g1" EndedSession.game eq_refl eq_refl)
    as (game' & H1 & H2 & _ & _ & H3 & _ & _ & _ & _ & H4 & H5
        & _ & H6 & H7 & _).
  exists game'. by split_and!.
Defined.

(** ** Starting a session *)

(** C6.  The code departs from the claim: the start handler has no
    phase guard and does not reset the day counter.  A start request on
    a session in its third NIGHT is accepted; the stored session is
    then in DAY with day counter 3, not 1, its log is replaced by the
    two entries of a fresh start, and the participant that was
    ELIMINATED stays so.  The handler itself treats the session as a
    fresh one (it asks for the "initial narrative" of day 1 and starts
    the log anew), and the join, vote and action handlers all test the
    phase. *)
Lemma startGame_outside_LOBBY :
  (getGame Restart.db "g1") = Some (Sample.game NIGHT 3)
  ∧ ∃ game',
      Restart.after.1 = json_game (Some game')
      ∧ getGame (Restart.after.2) "g1" = Some game'
      ∧ Game.currentPhase game' = DAY
      ∧ Game.dayNumber game' = 3
      ∧ (length <$> Game.gameLog game') = Some 2%nat
      ∧ Sample.statusOf (Restart.after.2) "d" = Some ELIMINATED.
Proof. split; [done|]. eexists. by vm_compute. Qed.

(** What the start handler does, whatever the phase.  For a stored
    session it succeeds exactly when there are at least 4 participants
    and all of them are ready: the answer is then the stored session,
    now in phase DAY, with the day counter it had before.  With fewer
    than 4 participants, or one that is not ready, it answers with
    status 400 and the store is the one before the call. *)
Theorem startGame_spec
    (generateNarrative : NarrativeContext → string → string)
    (rand : nat → nat) (now : Z) (db : Storage) (gameId : string) (game : Game) :
  getGame db gameId = Some game →
  let players := getPlayersByGame db gameId in
  let r := startGame generateNarrative rand now db gameId in
  ((4 ≤ length players)%nat ∧ Forall (λ p, Player.isReady p = true) players →
     ∃ game',
       r.1 = json_game (Some game')
       ∧ getGame r.2 gameId = Some game'
       ∧ Game.currentPhase game' = DAY
       ∧ Game.dayNumber game' = Game.dayNumber game
       ∧ (Game.dayNumber game = 1 → Game.dayNumber game' = 1))
  ∧ (¬ ((4 ≤ length players)%nat ∧ Forall (λ p, Player.isReady p = true) players) →
     (∃ message, r.1 = status_json 400 message) ∧ r.2 = db).
Proof.
  intros Hget players r. subst r. unfold startGame. rewrite Hget.
  fold players.
  destruct (decide (length players < 4)%nat) as [Hlt|Hge].
  { split; [intros [? _]; lia|]. intros _. split; [by eexists|done]. }
  destruct (forallb Player.isReady players) eqn:Hready; cbn [negb].
  - split; [|intros Hno; exfalso; apply Hno; split; [lia|]].
    2: { apply Forall_forall. intros p Hp.
         rewrite forallb_forall in Hready. apply Hready.
         by apply list_elem_of_In. }
    intros _.
    set (db1 := updatePlayers _ _ _ _).
    set (updates := Game.set_started _ _ _ _).
    assert (Hget1 : getGame db1 gameId = Some game).
    { unfold getGame, db1. by rewrite updatePlayers_games. }
    destruct (updateGame db1 gameId updates now) as [updatedGame db2] eqn:Hupd.
    assert (Hret := updateGame_returns db1 gameId updates now game Hget1).
    assert (Hidp : ∀ g, Game.id (updates g) = Game.id g) by done.
    assert (Hgg := updateGame_getGame db1 gameId updates now Hidp).
    rewrite Hupd in Hret, Hgg. simpl in Hret, Hgg. subst updatedGame.
    exists (Game.set_updatedAt now (updates game)). by split_and!.
  - split; [|intros _; split; [by eexists|done]].
    intros [_ Hall]. exfalso.
    assert (forallb Player.isReady players = true); [|congruence].
    apply forallb_forall. intros p Hp. apply list_elem_of_In in Hp.
    by apply (proj1 (Forall_forall _ _) Hall).
Qed.

Lemma startGame_spec_witness :
  (∃ game',
     Restart.after.1 = json_game (Some game')
     ∧ getGame (Restart.after.2) "g1" = Some game'
     ∧ Game.currentPhase game' = DAY
     ∧ Game.dayNumber game' = 3).
Proof.
  destruct (startGame_spec Sample.narrate (λ i, i) 10 Restart.db "g1"
              (Sample.game NIGHT 3) eq_refl) as [Hok _].
  destruct Hok as (game' & H1 & H2 & H3 & H4 & _).
  - split; [vm_compute; lia|]. by_evaluation.
  - exists game'. by split_and!.
Defined.

(** ** Vote counters *)

Lemma getPlayer_elem_of (db : Storage) (i : string) (p : Player) :
  getPlayer db i = Some p → p ∈ players db.
Proof.
  unfold getPlayer. intros Hhd.
  apply head_Some_elem_of in Hhd. by apply list_elem_of_filter in Hhd as [_ ?].
Qed.

Lemma updatePlayer_votesNonneg (db : Storage) (i : string)
    (updates : Player → Player) :
  (∀ p, 0 ≤ Player.votes p → 0 ≤ Player.votes (updates p)) →
  votesNonneg db → votesNonneg (updatePlayer db i updates).2.
Proof.
  unfold votesNonneg. intros Hupd Hdb. simpl.
  apply Forall_fmap. eapply Forall_impl; [exact Hdb|].
  intros p Hp. simpl. case_decide; auto.
Qed.

Lemma castVote_votesNonneg (db : Storage) (gameId playerId : string)
    (targetId : BodyField) :
  votesNonneg db → votesNonneg (castVote db gameId playerId targetId).2.
Proof.
  intros Hdb. unfold castVote.
  destruct (getGame db gameId) as [game|]; [|done].
  case_decide; [done|].
  destruct (getPlayer db playerId) as [player|]; [|done].
  case_decide; [done|]. cbv zeta. cbn [snd].
  set (db1 := match truthy (Player.votedFor player) with
              | Some prev => _ | None => _ end).
  assert (H1 : votesNonneg db1).
  { subst db1. destruct (truthy _) as [prev|]; [|done].
    destruct (getPlayer db prev) as [previousTarget|]; [|done].
    apply updatePlayer_votesNonneg; [|done]. intros p _. simpl. lia. }
  destruct targetId as [|targetId]; [exact H1|]. cbn [snd].
  set (db2 := (updatePlayer db1 playerId _).2).
  assert (H2 : votesNonneg db2).
  { subst db2. by apply updatePlayer_votesNonneg. }
  destruct (truthy targetId) as [tid|]; [|done].
  destruct (getPlayer db2 tid) as [target|] eqn:Htarget; [|done].
  apply updatePlayer_votesNonneg; [|done]. intros p _. simpl.
  apply getPlayer_elem_of in Htarget.
  pose proof (proj1 (Forall_forall _ _) H2 _ Htarget) as Hv. simpl in Hv. lia.
Qed.

(** C10. From a store in which no vote counter is negative (every
    counter starts at 0), any sequence of cast-vote requests leaves
    every participant's vote counter at 0 or above: the decrement of a
    previous target is floored at 0. *)
Theorem castVotes_votesNonneg (db : Storage) (reqs : list VoteRequest) :
  votesNonneg db →
  ∀ p, p ∈ players (castVotes db reqs) → 0 ≤ Player.votes p.
Proof.
  intros Hdb. apply Forall_forall. fold (votesNonneg (castVotes db reqs)).
  revert db Hdb. induction reqs as [|[[gameId playerId] targetId] reqs IH];
    intros db Hdb; [done|].
  simpl. apply IH. by apply castVote_votesNonneg.
Qed.

Lemma castVotes_votesNonneg_witness :
  (Player.votes <$> players (castVotes Revote.db Revote.reqs)) = [0; 1; 0; 0]
  ∧ ∀ p, p ∈ players (castVotes Revote.db Revote.reqs) → 0 ≤ Player.votes p.
Proof.
  split; [by vm_compute|].
  apply (castVotes_votesNonneg Revote.db Revote.reqs).
  by_evaluation.
Defined.

(** ** Night resolution *)

Lemma applyNightKills_db (players : list Player) (db : Storage)
    (log : list string) :
  (applyNightKills players (db, log)).1
  = updatePlayers (λ tgt, tgt) (λ _, Player.set_status ELIMINATED) db
      (nightKills players).
Proof.
  unfold applyNightKills, nightKills.
  set (saves := doctorSaves players).
  generalize (mafiaActions players) as ms. intros ms. revert db log.
  induction ms as [|m ms IH]; intros db log; [done|].
  cbn [foldl omap list_omap]. cbv beta iota.
  assert (Hk : killTarget saves m
               = match truthy (Player.actionTarget m) with
                 | Some tgt => if decide (tgt ∉ saves) then Some tgt else None
                 | None => None
                 end) by done.
  rewrite Hk. clear Hk.
  destruct (truthy (Player.actionTarget m)) as [tgt|]; [|apply IH].
  destruct (decide (tgt ∉ saves)); [|apply IH].
  cbn [updatePlayers foldl]. apply IH.
Qed.

Lemma doctorSaves_spec (players : list Player) (P : string) :
  P ∈ doctorSaves players
  ↔ ∃ d, d ∈ players ∧ Player.role d = Some DOCTOR
         ∧ Player.lastAction d = Some "HEAL"
         ∧ truthy (Player.actionTarget d) = Some P.
Proof.
  unfold doctorSaves. rewrite elem_of_list_to_set, list_elem_of_omap.
  split.
  - intros (d & Hd & Ht). apply list_elem_of_filter in Hd as [[Hr Ha] Hin].
    by exists d.
  - intros (d & Hin & Hr & Ha & Ht). exists d. split; [|done].
    by apply list_elem_of_filter.
Qed.

Lemma nightKills_spec (players : list Player) (P : string) :
  P ∈ nightKills players
  ↔ (∃ m, m ∈ players ∧ Player.role m = Some MAFIA
          ∧ Player.lastAction m = Some "KILL"
          ∧ truthy (Player.actionTarget m) = Some P)
    ∧ P ∉ doctorSaves players.
Proof.
  unfold nightKills, mafiaActions, killTarget. rewrite list_elem_of_omap.
  split.
  - intros (m & Hm & Hk). apply list_elem_of_filter in Hm as [[Hr Ha] Hin].
    destruct (truthy (Player.actionTarget m)) as [tgt|] eqn:Ht; [|done].
    case_decide; [|done]. injection Hk as ->. split; [by exists m|done].
  - intros [(m & Hin & Hr & Ha & Ht) Hns]. exists m. split.
    + by apply list_elem_of_filter.
    + cbv beta. rewrite Ht. by case_decide.
Qed.

Lemma eliminate_row (tgts : list string) (q : Player) :
  updateRow (λ tgt, tgt) (λ _, Player.set_status ELIMINATED) tgts q
  = if decide (Player.id q ∈ tgts) then Player.set_status ELIMINATED q else q.
Proof.
  revert q. induction tgts as [|t tgts IH]; intros q.
  - destruct (decide (Player.id q ∈ [])) as [Hin|_]; [|done].
    by apply not_elem_of_nil in Hin.
  - rewrite updateRow_cons.
    destruct (decide (Player.id q = t)) as [<-|Hne].
    + rewrite IH. simpl.
      rewrite (decide_True (P := Player.id q ∈ Player.id q :: tgts))
        by apply list_elem_of_here.
      by case_decide.
    + rewrite IH. apply decide_ext. rewrite elem_of_cons. tauto.
Qed.

Lemma clear_row (ps : list Player) (q : Player) :
  Player.id (updateRow Player.id (λ _, Player.set_action None None) ps q)
  = Player.id q
  ∧ Player.status (updateRow Player.id (λ _, Player.set_action None None) ps q)
    = Player.status q.
Proof.
  revert q. induction ps as [|p ps IH]; intros q; [done|].
  rewrite updateRow_cons.
  case_decide; [|apply IH].
  destruct (IH (Player.set_action None None q)) as [-> ->]. done.
Qed.

Lemma advanceNight_players (db : Storage) (gameId : string) (game : Game)
    (ps : list Player) (log0 : list string) :
  players (adv_db (advanceNight db gameId game ps log0))
  = (λ q, updateRow Player.id (λ _, Player.set_action None None) ps
            (updateRow (λ tgt, tgt) (λ _, Player.set_status ELIMINATED)
               (nightKills ps) q))
    <$> players db.
Proof.
  unfold advanceNight.
  pose proof (applyNightKills_db ps db (log0 ++ processNightActions ps)) as Hdb.
  destruct (applyNightKills ps _) as [db1 log1]. simpl in Hdb. subst db1.
  destruct (checkWinCondition _); cbn [adv_db];
    by rewrite !updatePlayers_players, <- list_fmap_compose.
Qed.

Lemma nextPhase_NIGHT_players
    (generateNarrative : NarrativeContext → string → string)
    (generateGameSummary : Winner.t → list Player → list string → string → GameSummary)
    (now : Z) (db : Storage) (gameId : string) (game : Game) :
  getGame db gameId = Some game →
  Game.currentPhase game = NIGHT →
  players (nextPhase generateNarrative generateGameSummary now db gameId).2
  = players (adv_db (advanceNight db gameId game (getPlayersByGame db gameId)
                       (default [] (Game.gameLog game)))).
Proof.
  intros Hget Hphase. unfold nextPhase. rewrite Hget, Hphase.
  cbv zeta. destruct (updateGame _ _ _ _) as [updatedGame db'] eqn:Hupd.
  cbn [snd]. apply (f_equal snd) in Hupd. cbn [snd] in Hupd. subst db'.
  apply updateGame_players.
Qed.

(** C4. After the NIGHT case, a participant P targeted by at least one
    MAFIA KILL action is ELIMINATED when P is not in the protected-set,
    and keeps the status it had when P is in it, however many attackers
    target P; the protected-set holds exactly the targets of the DOCTOR
    HEAL actions.  The statement holds for every target separately, so
    a heal on P does not protect a target Q outside the protected-set. *)
Theorem night_kill_resolution
    (generateNarrative : NarrativeContext → string → string)
    (generateGameSummary : Winner.t → list Player → list string → string → GameSummary)
    (now : Z) (db : Storage) (gameId : string) (game : Game) (P : string) :
  getGame db gameId = Some game →
  Game.currentPhase game = NIGHT →
  let ps := getPlayersByGame db gameId in
  let db' := (nextPhase generateNarrative generateGameSummary now db gameId).2 in
  (∃ m, m ∈ ps ∧ Player.role m = Some MAFIA
        ∧ Player.lastAction m = Some "KILL"
        ∧ truthy (Player.actionTarget m) = Some P) →
  (P ∈ doctorSaves ps
   ↔ ∃ d, d ∈ ps ∧ Player.role d = Some DOCTOR
          ∧ Player.lastAction d = Some "HEAL"
          ∧ truthy (Player.actionTarget d) = Some P)
  ∧ (P ∈ nightKills ps ↔ P ∉ doctorSaves ps)
  ∧ ∀ k q, players db !! k = Some q → Player.id q = P →
      ∃ q', players db' !! k = Some q'
            ∧ Player.id q' = P
            ∧ (P ∉ doctorSaves ps → Player.status q' = ELIMINATED)
            ∧ (P ∈ doctorSaves ps → Player.status q' = Player.status q).
Proof.
  intros Hget Hphase ps db' Htargeted.
  split; [apply doctorSaves_spec|].
  assert (Hkills : P ∈ nightKills ps ↔ P ∉ doctorSaves ps).
  { rewrite nightKills_spec. tauto. }
  split; [exact Hkills|].
  intros k q Hk Hid. subst db'.
  rewrite (nextPhase_NIGHT_players _ _ _ _ _ game) by done.
  rewrite advanceNight_players, list_lookup_fmap, Hk. fold ps.
  eexists. split; [reflexivity|].
  destruct (clear_row ps (updateRow (λ tgt, tgt)
              (λ _, Player.set_status ELIMINATED) (nightKills ps) q)) as [-> ->].
  rewrite eliminate_row, Hid.
  destruct (decide (P ∈ nightKills ps)) as [Hin|Hnin]; simpl.
  - split; [done|]. split; [done|]. intros Hs. by apply Hkills in Hin.
  - split; [done|]. split; [|done]. intros Hns. by apply Hkills in Hns.
Qed.

Lemma night_kill_resolution_witness :
  Sample.statusOf (TwoAttackers.after.2) "c" = Some ALIVE
  ∧ Sample.statusOf (TwoAttackers.after.2) "d" = Some ELIMINATED
  ∧ ∃ q', players (TwoAttackers.after.2) !! 3%nat = Some q'
          ∧ Player.id q' = "d" ∧ Player.status q' = ELIMINATED.
Proof.
  split; [by vm_compute|]. split; [by vm_compute|].
  destruct (night_kill_resolution Sample.narrate Sample.summarise 10
              TwoAttackers.db "g1" (Sample.game NIGHT 1) "d" eq_refl eq_refl)
    as (_ & _ & Hrow).
  - exists (Sample.acting "KILL" "d" (Sample.player "b" MAFIA ALIVE)).
    split; [|done]. vm_compute. apply list_elem_of_further, list_elem_of_here.
  - destruct (Hrow 3%nat (Sample.player "d" DETECTIVE ALIVE) eq_refl eq_refl)
      as (q' & Hq' & Hid & Helim & _).
    exists q'. split; [exact Hq'|]. split; [exact Hid|].
    apply Helim. by_evaluation.
Defined.

Lemma foldl_Forall2 {A B} (R : B → B → Prop) (f : A → B → A)
    (l k : list B) (a : A) :
  (∀ a x y, R x y → f a x = f a y) →
  Forall2 R l k → foldl f a l = foldl f a k.
Proof.
  intros Hf HR. revert a. induction HR as [|x y l k Hxy _ IH]; intros a; [done|].
  simpl. rewrite (Hf a x y Hxy). apply IH.
Qed.

Lemma omap_Forall2 {A B} (R : A → A → Prop) (f : A → option B) (l k : list A) :
  (∀ x y, R x y → f x = f y) →
  Forall2 R l k → omap f l = omap f k.
Proof.
  intros Hf. induction 1 as [|x y l k Hxy _ IH]; [done|].
  csimpl. by rewrite (Hf x y Hxy), IH.
Qed.

Lemma filter_filter_elem_of {A} (P1 P2 : A → Prop)
    `{!∀ x, Decision (P1 x), !∀ x, Decision (P2 x)} (l : list A) :
  (∀ x, x ∈ l → P1 x → P2 x) →
  filter P1 (filter P2 l) = filter P1 l.
Proof.
  induction l as [|x l IH]; intros Himp; [done|].
  assert (IH' : filter P1 (filter P2 l) = filter P1 l).
  { apply IH. intros y Hy. apply Himp. by apply list_elem_of_further. }
  rewrite (filter_cons P2). destruct (decide (P2 x)) as [H2|H2].
  - rewrite !filter_cons. by rewrite IH'.
  - rewrite IH', filter_cons. rewrite decide_False; [done|].
    intros H1. apply H2, Himp; [apply list_elem_of_here|done].
Qed.

Lemma nightInput_Forall2 (ps1 ps2 : list Player) :
  nightInput <$> ps1 = nightInput <$> ps2 ↔ Forall2 sameNightInput ps1 ps2.
Proof. by rewrite list_eq_Forall2, Forall2_fmap. Qed.

Lemma doctorSaves_inputs (ps1 ps2 : list Player) :
  Forall2 sameNightInput ps1 ps2 → doctorSaves ps1 = doctorSaves ps2.
Proof.
  intros HR. unfold doctorSaves. f_equal.
  apply (omap_Forall2 sameNightInput).
  - intros x y [= _ _ Ht]. by rewrite Ht.
  - apply Forall2_filter; [|done]. intros x y [= Hr Ha _]. by rewrite Hr, Ha.
Qed.

Lemma nightKills_inputs (ps1 ps2 : list Player) :
  Forall2 sameNightInput ps1 ps2 → nightKills ps1 = nightKills ps2.
Proof.
  intros HR. unfold nightKills, mafiaActions.
  rewrite (doctorSaves_inputs ps1 ps2 HR).
  apply (omap_Forall2 sameNightInput).
  - intros x y [= _ _ Ht]. unfold killTarget. by rewrite Ht.
  - apply Forall2_filter; [|done]. intros x y [= Hr Ha _]. by rewrite Hr, Ha.
Qed.

Lemma processNightActions_inputs (ps1 ps2 : list Player) :
  Forall2 sameNightInput ps1 ps2 → processNightActions ps1 = processNightActions ps2.
Proof.
  intros HR. unfold processNightActions.
  set (actions1 := filter _ ps1). set (actions2 := filter _ ps2).
  assert (Hact : Forall2 sameNightInput actions1 actions2).
  { apply Forall2_filter; [|done]. intros x y [= _ Ha Ht]. by rewrite Ha, Ht. }
  assert (Hsaves : ∀ st,
    processSaves (filter (λ p, Player.role p = Some DOCTOR
                               ∧ Player.lastAction p = Some "HEAL") actions1) st
    = processSaves (filter (λ p, Player.role p = Some DOCTOR
                                 ∧ Player.lastAction p = Some "HEAL") actions2) st).
  { intros st. apply (foldl_Forall2 sameNightInput).
    - intros [saves events] x y [= _ _ Ht]. by rewrite Ht.
    - apply Forall2_filter; [|done]. intros x y [= Hr Ha _]. by rewrite Hr, Ha. }
  rewrite Hsaves. destruct (processSaves _ _) as [saves events].
  assert (Hkills :
    processKills saves
      (filter (λ p, Player.role p = Some MAFIA
                    ∧ Player.lastAction p = Some "KILL") actions1) events
    = processKills saves
        (filter (λ p, Player.role p = Some MAFIA
                      ∧ Player.lastAction p = Some "KILL") actions2) events).
  { apply (foldl_Forall2 sameNightInput).
    - intros evs x y [= _ _ Ht]. by rewrite Ht.
    - apply Forall2_filter; [|done]. intros x y [= Hr Ha _]. by rewrite Hr, Ha. }
  rewrite Hkills. apply (foldl_Forall2 sameNightInput).
  - intros evs x y [= _ _ Ht]. by rewrite Ht.
  - apply Forall2_filter; [|done]. intros x y [= Hr Ha _]. by rewrite Hr, Ha.
Qed.

(** C5.  The code departs from the claim: night resolution does not
    select the ALIVE participants.  The HEAL held by an ELIMINATED
    DOCTOR enters the protected-set, empties the elimination set and
    changes the events, so that the attacked participant is still ALIVE
    after the NIGHT case, where resolution over the ALIVE participants
    alone eliminates it.  The take-action handler refuses a participant
    that is not ALIVE and the VOTING case counts the ALIVE voters only;
    the NIGHT case has no such filter.  A store with such a HEAL is
    reached by requests that are all accepted (the second part, on the
    requests of [Replay]). *)
Lemma night_resolution_reads_eliminated :
  (nightResolution StaleHeal.ps = ([evProtected; evSurvived], {[ "d" ]}, [])
   ∧ nightResolution StaleHeal.alive = ([evEliminated], ∅, ["d"])
   ∧ nightResolution StaleHeal.ps ≠ nightResolution StaleHeal.alive
   ∧ Sample.statusOf (StaleHeal.after.2) "d" = Some ALIVE)
  ∧ (Forall (λ answer, ∀ code message, answer ≠ status_json code message)
       Replay.answers
     ∧ (λ p, (Player.id p, Player.role p, Player.status p,
              Player.lastAction p, Player.actionTarget p)) <$> Replay.night
       = [("a", Some VILLAGER, ALIVE, None, None);
          ("b", Some VILLAGER, ALIVE, None, None);
          ("c", Some DOCTOR, ELIMINATED, Some "HEAL", Some "d");
          ("d", Some DETECTIVE, ALIVE, None, None);
          ("e", Some MAFIA, ALIVE, Some "KILL", Some "d")]
     ∧ nightResolution Replay.night = ([evProtected; evSurvived], {[ "d" ]}, [])
     ∧ nightResolution (filter (λ p, Player.status p = ALIVE) Replay.night)
       = ([evEliminated], ∅, ["d"])
     ∧ Sample.statusOf Replay.dawn "d" = Some ALIVE).
Proof.
  assert (H1 : nightResolution StaleHeal.ps
               = ([evProtected; evSurvived], {[ "d" ]}, [])) by (by vm_compute).
  assert (H2 : nightResolution StaleHeal.alive = ([evEliminated], ∅, ["d"]))
    by (by vm_compute).
  split.
  - split_and!; [exact H1|exact H2| |by vm_compute].
    rewrite H1, H2. intros [= ].
  - split_and!; try (by vm_compute).
    unfold Replay.answers.
    repeat (apply Forall_cons; split; [intros code message; by vm_compute|]).
    by apply Forall_nil.
Qed.

(** Night resolution reads every participant's (role, pending action,
    action target) and nothing else: two participant lists that agree
    on these give the same events, protected-set and elimination set,
    whatever the statuses.  It coincides with resolution over the ALIVE
    participants alone when no participant that is not ALIVE holds a
    pending action. *)
Theorem night_resolution_inputs (ps : list Player) :
  (∀ ps', nightInput <$> ps' = nightInput <$> ps →
          nightResolution ps' = nightResolution ps)
  ∧ ((∀ p, p ∈ ps → Player.status p ≠ ALIVE → Player.lastAction p = None) →
     nightResolution (filter (λ p, Player.status p = ALIVE) ps)
     = nightResolution ps).
Proof.
  split.
  - intros ps' Heq. apply nightInput_Forall2 in Heq. unfold nightResolution.
    by rewrite (processNightActions_inputs ps' ps), (doctorSaves_inputs ps' ps),
      (nightKills_inputs ps' ps).
  - intros Hclean.
    assert (Halive : ∀ p, p ∈ ps → is_Some (Player.lastAction p) →
                          Player.status p = ALIVE).
    { intros p Hp [a Ha]. destruct (decide (Player.status p = ALIVE)); [done|].
      rewrite Hclean in Ha by done. discriminate. }
    assert (Hsaves : doctorSaves (filter (λ p, Player.status p = ALIVE) ps)
                     = doctorSaves ps).
    { unfold doctorSaves. rewrite filter_filter_elem_of; [done|].
      intros p Hp [_ Ha]. apply Halive; [done|]. by rewrite Ha. }
    assert (Hkills : mafiaActions (filter (λ p, Player.status p = ALIVE) ps)
                     = mafiaActions ps).
    { unfold mafiaActions. rewrite filter_filter_elem_of; [done|].
      intros p Hp [_ Ha]. apply Halive; [done|]. by rewrite Ha. }
    unfold nightResolution, nightKills, processNightActions.
    rewrite Hsaves, Hkills.
    rewrite (filter_filter_elem_of _ (λ p, Player.status p = ALIVE)); [done|].
    intros p Hp [Ha _]. apply Halive; [done|].
    destruct (Player.lastAction p); [done|]. by destruct Ha.
Qed.

Lemma night_resolution_inputs_witness :
  nightResolution (filter (λ p, Player.status p = ALIVE) CleanNight.ps)
  = nightResolution CleanNight.ps
  ∧ nightResolution CleanNight.ps
    = ([evProtected; evEliminated; evInvestigated], {[ "b" ]}, ["d"]).
Proof.
  split; [|by vm_compute].
  apply (proj2 (night_resolution_inputs CleanNight.ps)).
  apply (proj1 (Forall_forall
           (λ p, Player.status p ≠ ALIVE → Player.lastAction p = None) _)).
  by_evaluation.
Defined.

(** * Further properties of the game logic *)

(** ** Role assignment with any distribution *)

Lemma assignments_roles_take (avail : list Player) (slots : list Role) :
  RoleAssignment.role
    <$> zip_with (λ p r, RoleAssignment.mk (Player.id p) r) avail slots
  = take (length avail) slots.
Proof.
  rewrite <- (zip_with_fmap_l RoleAssignment.mk Player.id).
  rewrite <- zip_with_take_r, length_fmap.
  apply fmap_zip_with_r; [done|]. rewrite length_take, length_fmap. lia.
Qed.

(** X1. Whatever the distribution and the draws of the shuffle,
    [assignRoles] returns as many assignments as there are players or
    slots, whichever is fewer, never an identifier twice and only
    identifiers of the players given (whose identifiers are distinct). *)
Theorem assignRoles_bounded (rand : nat → nat) (players : list Player)
    (dist : RoleDistribution) :
  NoDup (Player.id <$> players) →
  let assignments := assignRoles rand players dist in
  length assignments = (length players `min` length (roleSlots dist))%nat
  ∧ NoDup (RoleAssignment.playerId <$> assignments)
  ∧ (∀ a, a ∈ assignments → RoleAssignment.playerId a ∈ Player.id <$> players).
Proof.
  intros Hids assignments. subst assignments. rewrite assignRoles_zip.
  pose proof (shuffle_Permutation rand players) as Hperm.
  split_and!.
  - by rewrite length_zip_with, Hperm.
  - rewrite assignments_playerIds.
    eapply sublist_NoDup; [|apply sublist_take]. by rewrite Hperm.
  - intros a Ha.
    apply (list_elem_of_fmap_2 RoleAssignment.playerId) in Ha.
    rewrite assignments_playerIds in Ha.
    apply subseteq_take in Ha. by rewrite Hperm in Ha.
Qed.

Lemma assignRoles_bounded_witness :
  let ps := [Sample.player "a" VILLAGER ALIVE; Sample.player "b" VILLAGER ALIVE;
             Sample.player "c" VILLAGER ALIVE] in
  let assignments := assignRoles (λ i, i + 1)%nat ps (calculateRoleDistribution 3) in
  length assignments = 3%nat
  ∧ NoDup (RoleAssignment.playerId <$> assignments).
Proof.
  intros ps assignments.
  destruct (assignRoles_bounded (λ i, i + 1)%nat ps (calculateRoleDistribution 3))
    as (Hlen & Hnd & _); [by_evaluation|].
  split; [exact Hlen|exact Hnd].
Defined.

(** X2. The roles are handed out in the key order of the distribution,
    slot by slot; when the players run out, the remaining slots are
    dropped, so the roles assigned are the first [players.length] slots. *)
Theorem assignRoles_slot_order (rand : nat → nat) (players : list Player)
    (dist : RoleDistribution) :
  RoleAssignment.role <$> assignRoles rand players dist
  = take (length players) (roleSlots dist).
Proof.
  rewrite assignRoles_zip, assignments_roles_take.
  by rewrite (shuffle_Permutation rand players).
Qed.

(** ** Default distribution for any player count *)

(** X3. For every player count, also below 4 or negative, the default
    distribution gives each of the four roles at least one slot, and
    its slots add up to max(4, N): with fewer than 4 players it asks
    for more roles than there are players. *)
Theorem calculateRoleDistribution_total (N : Z) :
  Forall (λ e, 1 ≤ e.2) (calculateRoleDistribution N)
  ∧ (calculateRoleDistribution N).*1 = [VILLAGER; DOCTOR; DETECTIVE; MAFIA]
  ∧ distTotal (calculateRoleDistribution N) = Z.max 4 N.
Proof.
  unfold calculateRoleDistribution, distTotal. cbn [foldr snd fmap list_fmap fst].
  split_and!; [|done|].
  - repeat constructor; simpl; lia.
  - pose proof (Z.div_mod N 3 ltac:(lia)) as Hdm.
    pose proof (Z.mod_pos_bound N 3 ltac:(lia)) as Hmod. lia.
Qed.

(** ** Valid targets by phase *)

(** X4. The valid targets are picked from the list given, in its
    order; computing them again from the result changes nothing; and
    outside the actor's own phase there are none: DOCTOR, DETECTIVE and
    MAFIA have targets only when the phase is "NIGHT" (so none while
    VOTING), every other player only when it is "VOTING". *)
Theorem getValidTargets_by_phase (player : Player) (allPlayers : list Player)
    (phase : string) :
  let special :=
    bool_decide (Player.role player ∈ [Some DOCTOR; Some DETECTIVE; Some MAFIA]) in
  getValidTargets player allPlayers phase `sublist_of` allPlayers
  ∧ getValidTargets player (getValidTargets player allPlayers phase) phase
    = getValidTargets player allPlayers phase
  ∧ (phase ≠ (if special then "NIGHT" else "VOTING") →
     getValidTargets player allPlayers phase = []).
Proof.
  intros special. subst special. unfold getValidTargets.
  set (others := λ l : list Player,
         filter (λ p, Player.status p = ALIVE ∧ Player.id p ≠ Player.id player) l).
  assert (Hidem : ∀ l, others (others l) = others l).
  { intros l. unfold others. apply list_filter_filter_l. tauto. }
  assert (Hsub : ∀ l, others l `sublist_of` l) by (intros l; apply sublist_filter).
  assert (Hmaf : ∀ l,
    filter (λ p, Player.role p ≠ Some MAFIA)
      (others (filter (λ p, Player.role p ≠ Some MAFIA) (others l)))
    = filter (λ p, Player.role p ≠ Some MAFIA) (others l)).
  { intros l. unfold others. rewrite !list_filter_filter.
    apply list_filter_iff. tauto. }
  fold (others allPlayers).
  destruct (Player.role player) as [[]|]; simpl;
    (case_decide as Hph;
     [ split_and!;
       [ try apply Hsub; by (etrans; [apply sublist_filter|apply Hsub])
       | try apply Hidem; try apply Hmaf
       | by rewrite Hph ]
     | split_and!; [apply sublist_nil_l|done|done] ]).
Qed.

Lemma getValidTargets_by_phase_witness :
  let doc := Sample.player "c" DOCTOR ALIVE in
  getValidTargets doc [doc; Sample.player "d" VILLAGER ALIVE] "VOTING" = [].
Proof.
  intros doc.
  apply (getValidTargets_by_phase doc [doc; Sample.player "d" VILLAGER ALIVE] "VOTING").
  vm_compute. discriminate.
Defined.

(** ** The events of a night *)

Lemma foldl_filter_skip {A B} (P : B → Prop) `{!∀ x, Decision (P x)}
    (f : A → B → A) (l : list B) (a : A) :
  (∀ a x, x ∈ l → ¬ P x → f a x = a) →
  foldl f a (filter P l) = foldl f a l.
Proof.
  revert a. induction l as [|x l IH]; intros a Hskip; [done|].
  rewrite filter_cons. simpl.
  assert (Hl : ∀ a y, y ∈ l → ¬ P y → f a y = a).
  { intros a' y Hy. apply Hskip. by apply list_elem_of_further. }
  destruct (decide (P x)) as [Hx|Hx]; simpl.
  - by apply IH.
  - rewrite (Hskip a x) by (done || apply list_elem_of_here). by apply IH.
Qed.

(** The filter [actions] of [processNightActions] commutes with the
    filter on role and action. *)
Lemma roleActions_actions (r : Role) (a : string) (players : list Player) :
  filter (λ p, Player.role p = Some r ∧ Player.lastAction p = Some a)
    (filter (λ p, is_Some (truthy (Player.lastAction p))
                  ∧ is_Some (truthy (Player.actionTarget p))) players)
  = filter (λ p, is_Some (truthy (Player.lastAction p))
                 ∧ is_Some (truthy (Player.actionTarget p)))
      (roleActions r a players).
Proof.
  unfold roleActions. rewrite !list_filter_filter.
  apply list_filter_iff. tauto.
Qed.

Lemma processSaves_spec (doctors : list Player) (saves : gset string)
    (events : list string) :
  processSaves doctors (saves, events)
  = (list_to_set (actionTargets doctors) ∪ saves,
     events ++ replicate (length (actionTargets doctors)) evProtected).
Proof.
  unfold processSaves, actionTargets.
  revert saves events. induction doctors as [|d ds IH]; intros saves events.
  - simpl. f_equal; [set_solver|by rewrite app_nil_r].
  - cbn [foldl omap list_omap].
    destruct (truthy (Player.actionTarget d)) as [tgt|]; [|apply IH].
    rewrite IH. cbn [length replicate]. f_equal.
    + rewrite list_to_set_cons. set_solver.
    + by rewrite <- app_assoc.
Qed.

Lemma processKills_spec (saves : gset string) (mafias : list Player)
    (events : list string) :
  processKills saves mafias events = events ++ omap (killEvent saves) mafias.
Proof.
  unfold processKills.
  revert events. induction mafias as [|m ms IH]; intros events.
  - simpl. by rewrite app_nil_r.
  - cbn [foldl omap list_omap]. cbv beta.
    assert (Hk : killEvent saves m
                 = match truthy (Player.actionTarget m) with
                   | Some tgt =>
                       Some (if decide (tgt ∉ saves) then evEliminated
                             else evSurvived)
                   | None => None
                   end) by done.
    rewrite Hk. clear Hk.
    destruct (truthy (Player.actionTarget m)) as [tgt|]; [|apply IH].
    destruct (decide (tgt ∉ saves)); rewrite IH, <- app_assoc; done.
Qed.

Lemma processInvestigations_spec (detectives : list Player)
    (events : list string) :
  processInvestigations detectives events
  = events ++ replicate (length (actionTargets detectives)) evInvestigated.
Proof.
  unfold processInvestigations, actionTargets.
  revert events. induction detectives as [|d ds IH]; intros events.
  - simpl. by rewrite app_nil_r.
  - cbn [foldl omap list_omap].
    destruct (truthy (Player.actionTarget d)) as [tgt|]; [|apply IH].
    rewrite IH. cbn [length replicate]. by rewrite <- app_assoc.
Qed.

Lemma truthy_action_target (r : Role) (a : string) (players : list Player)
    (p : Player) :
  a ≠ "" →
  p ∈ roleActions r a players →
  ¬ (is_Some (truthy (Player.lastAction p))
     ∧ is_Some (truthy (Player.actionTarget p))) →
  truthy (Player.actionTarget p) = None.
Proof.
  intros Ha Hp Hno. apply list_elem_of_filter in Hp as [[_ Hact] _].
  destruct (truthy (Player.actionTarget p)) as [tgt|] eqn:Ht; [|done].
  exfalso. apply Hno. split; [|done].
  rewrite Hact. simpl. rewrite decide_False by done. done.
Qed.

(** X5. The events of [processNightActions], in full: first one
    "protected" event per DOCTOR HEAL with a target, then, for each
    MAFIA KILL with a target and in the order of the player list,
    "eliminated" when the target is outside the protected-set of the
    NIGHT case and "survived" when it is inside, then one
    "investigated" event per DETECTIVE INVESTIGATE with a target.  An
    action that does not fit the role of its holder, or has no target,
    leaves no event. *)
Theorem processNightActions_events (players : list Player) :
  processNightActions players
  = replicate (length (actionTargets (roleActions DOCTOR "HEAL" players)))
              evProtected
    ++ omap (killEvent (doctorSaves players)) (roleActions MAFIA "KILL" players)
    ++ replicate
         (length (actionTargets (roleActions DETECTIVE "INVESTIGATE" players)))
         evInvestigated.
Proof.
  set (acting := λ p, is_Some (truthy (Player.lastAction p))
                      ∧ is_Some (truthy (Player.actionTarget p))).
  assert (H1 : ∀ st,
    processSaves (filter acting (roleActions DOCTOR "HEAL" players)) st
    = processSaves (roleActions DOCTOR "HEAL" players) st).
  { intros st. unfold processSaves. apply foldl_filter_skip.
    intros [saves events] p Hp Hno.
    by rewrite (truthy_action_target DOCTOR "HEAL" players p). }
  assert (H2 : ∀ saves events,
    processKills saves (filter acting (roleActions MAFIA "KILL" players)) events
    = processKills saves (roleActions MAFIA "KILL" players) events).
  { intros saves events. unfold processKills. apply foldl_filter_skip.
    intros evs p Hp Hno.
    by rewrite (truthy_action_target MAFIA "KILL" players p). }
  assert (H3 : ∀ events,
    processInvestigations
      (filter acting (roleActions DETECTIVE "INVESTIGATE" players)) events
    = processInvestigations (roleActions DETECTIVE "INVESTIGATE" players) events).
  { intros events. unfold processInvestigations. apply foldl_filter_skip.
    intros evs p Hp Hno.
    by rewrite (truthy_action_target DETECTIVE "INVESTIGATE" players p). }
  unfold processNightActions. rewrite !roleActions_actions. fold acting.
  rewrite H1, processSaves_spec. cbv beta iota.
  rewrite H2, processKills_spec, H3, processInvestigations_spec.
  rewrite (right_id_L ∅ (∪)). simpl. by rewrite <- app_assoc.
Qed.

Lemma filter_replicate_other (a b : string) (n : nat) :
  b ≠ a → filter (λ e, e = a) (replicate n b) = [].
Proof.
  intros Hne. induction n as [|n IH]; [done|].
  simpl. by rewrite filter_cons, decide_False.
Qed.

Lemma evEliminated_kills (saves : gset string) (mafias : list Player) :
  length (filter (λ e, e = evEliminated) (omap (killEvent saves) mafias))
  = length (omap (killTarget saves) mafias).
Proof.
  induction mafias as [|m ms IH]; [done|].
  cbn [omap list_omap]. unfold killEvent at 1, killTarget at 1.
  destruct (truthy (Player.actionTarget m)) as [tgt|]; [|exact IH].
  destruct (decide (tgt ∉ saves)).
  - rewrite filter_cons, decide_True by done. simpl. by rewrite IH.
  - rewrite filter_cons, decide_False by done. exact IH.
Qed.

Lemma evSurvived_protected (saves : gset string) (mafias : list Player) :
  length (filter (λ e, e = evSurvived) (omap (killEvent saves) mafias))
  = length (filter (λ tgt, tgt ∈ saves) (actionTargets mafias)).
Proof.
  unfold actionTargets. induction mafias as [|m ms IH]; [done|].
  cbn [omap list_omap]. unfold killEvent at 1.
  destruct (truthy (Player.actionTarget m)) as [tgt|]; [|exact IH].
  rewrite (filter_cons (λ tgt, tgt ∈ saves)).
  destruct (decide (tgt ∉ saves)) as [Hout|Hin].
  - rewrite filter_cons, decide_False by done.
    rewrite (decide_False (P := tgt ∈ saves)) by done. exact IH.
  - rewrite filter_cons, decide_True by done.
    rewrite (decide_True (P := tgt ∈ saves)) by (by apply dec_stable).
    simpl. by rewrite IH.
Qed.

Lemma filter_eq_absent (x : string) (l : list string) :
  x ∉ l → filter (λ e, e = x) l = [].
Proof.
  induction l as [|y l IH]; intros Hnin; [done|].
  apply not_elem_of_cons in Hnin as [Hne Hnin].
  rewrite filter_cons, decide_False by done. by apply IH.
Qed.

(** What the NIGHT case leaves of a row: the identifier it had, and the
    status ELIMINATED when the identifier is in the elimination set,
    else the status it had. *)
Lemma night_row (ps : list Player) (q : Player) :
  let q' := updateRow Player.id (λ _, Player.set_action None None) ps
              (updateRow (λ tgt, tgt) (λ _, Player.set_status ELIMINATED)
                 (nightKills ps) q) in
  Player.id q' = Player.id q
  ∧ Player.status q'
    = if decide (Player.id q ∈ nightKills ps) then ELIMINATED else Player.status q.
Proof.
  intros q'. subst q'.
  destruct (clear_row ps (updateRow (λ tgt, tgt)
              (λ _, Player.set_status ELIMINATED) (nightKills ps) q)) as [-> ->].
  rewrite eliminate_row. by case_decide.
Qed.

(** X6. The log of a night against the store.  [processNightActions]
    logs "eliminated" once per elimination update of the NIGHT case,
    that is once per MAFIA KILL aimed outside the protected-set, and
    "survived" once per MAFIA KILL aimed inside it.  In the store, a
    row is ELIMINATED after the request when its identifier is the
    target of such an update, and keeps its status otherwise: so a
    night without "eliminated" event changes no status, while an
    "eliminated" event whose target is no stored participant is logged
    without anybody being marked. *)
Theorem night_log_matches_kills
    (generateNarrative : NarrativeContext → string → string)
    (generateGameSummary : Winner.t → list Player → list string → string → GameSummary)
    (now : Z) (db : Storage) (gameId : string) (game : Game) :
  getGame db gameId = Some game →
  Game.currentPhase game = NIGHT →
  let ps := getPlayersByGame db gameId in
  let db' := (nextPhase generateNarrative generateGameSummary now db gameId).2 in
  let marked (p p' : Player) :=
    Player.id p' = Player.id p
    ∧ Player.status p'
      = if decide (Player.id p ∈ nightKills ps) then ELIMINATED
        else Player.status p in
  length (filter (λ e, e = evEliminated) (processNightActions ps))
  = length (nightKills ps)
  ∧ length (filter (λ e, e = evSurvived) (processNightActions ps))
    = length (filter (λ tgt, tgt ∈ doctorSaves ps)
                     (actionTargets (mafiaActions ps)))
  ∧ (∀ p', p' ∈ players db' → ∃ p, p ∈ players db ∧ marked p p')
  ∧ (∀ p, p ∈ players db → ∃ p', p' ∈ players db' ∧ marked p p')
  ∧ (evEliminated ∉ processNightActions ps
     ∨ (∀ tgt, tgt ∈ nightKills ps → tgt ∉ Player.id <$> players db) →
     ∀ p', p' ∈ players db' →
       ∃ p, p ∈ players db ∧ Player.id p' = Player.id p
            ∧ Player.status p' = Player.status p).
Proof.
  intros Hget Hphase ps db' marked.
  assert (Hcount :
    length (filter (λ e, e = evEliminated) (processNightActions ps))
    = length (nightKills ps)
    ∧ length (filter (λ e, e = evSurvived) (processNightActions ps))
      = length (filter (λ tgt, tgt ∈ doctorSaves ps)
                       (actionTargets (mafiaActions ps)))).
  { rewrite processNightActions_events. unfold nightKills.
    change (mafiaActions ps) with (roleActions MAFIA "KILL" ps).
    rewrite !filter_app, !length_app.
    rewrite !(filter_replicate_other evEliminated) by done.
    rewrite !(filter_replicate_other evSurvived) by done.
    simpl. rewrite !Nat.add_0_r.
    split; [apply evEliminated_kills|apply evSurvived_protected]. }
  assert (Hrows : players db'
    = (λ q, updateRow Player.id (λ _, Player.set_action None None) ps
              (updateRow (λ tgt, tgt) (λ _, Player.set_status ELIMINATED)
                 (nightKills ps) q)) <$> players db).
  { subst db'. rewrite (nextPhase_NIGHT_players _ _ _ _ _ game) by done.
    by rewrite advanceNight_players. }
  assert (Hfrom : ∀ p', p' ∈ players db' → ∃ p, p ∈ players db ∧ marked p p').
  { intros p' Hp'. rewrite Hrows in Hp'.
    apply list_elem_of_fmap in Hp' as (p & -> & Hp).
    exists p. split; [done|]. apply night_row. }
  destruct Hcount as [Hel Hsv].
  split; [exact Hel|]. split; [exact Hsv|]. split; [exact Hfrom|]. split.
  - intros p Hp. eexists. split.
    + rewrite Hrows. apply list_elem_of_fmap. exists p. split; [reflexivity|done].
    + apply night_row.
  - intros Hquiet p' Hp'. destruct (Hfrom p' Hp') as (p & Hp & Hid & Hst).
    exists p. split; [done|]. split; [done|]. rewrite Hst.
    rewrite decide_False; [done|]. intros Hin.
    destruct Hquiet as [Hnone|Habsent].
    + rewrite (filter_eq_absent _ _ Hnone) in Hel. simpl in Hel.
      symmetry in Hel. apply nil_length_inv in Hel.
      rewrite Hel in Hin. by apply not_elem_of_nil in Hin.
    + apply (Habsent _ Hin). by apply list_elem_of_fmap_2.
Qed.

Lemma night_log_matches_kills_witness :
  length (filter (λ e, e = evEliminated)
            (processNightActions (getPlayersByGame TwoAttackers.db "g1")))
  = 1%nat
  ∧ ∃ p', p' ∈ players (TwoAttackers.after.2)
          ∧ Player.id p' = "d" ∧ Player.status p' = ELIMINATED.
Proof.
  destruct (night_log_matches_kills Sample.narrate Sample.summarise 10
              TwoAttackers.db "g1" (Sample.game NIGHT 1) eq_refl eq_refl)
    as (Hel & _ & _ & Hto & _).
  split; [by rewrite Hel|].
  destruct (Hto (Sample.player "d" DETECTIVE ALIVE)) as (p' & Hp' & Hid & Hst).
  - apply list_elem_of_lookup. by exists 3%nat.
  - exists p'. split; [exact Hp'|]. split; [exact Hid|].
    rewrite Hst. by vm_compute.
Defined.

(** ** The win condition reads the ALIVE participants only *)

Lemma aliveCount_alive (P : option Role → Prop) `{!∀ r, Decision (P r)}
    (players : list Player) :
  aliveCount P (filter (λ p, Player.status p = ALIVE) players)
  = aliveCount P players.
Proof.
  unfold aliveCount. f_equal. apply list_filter_filter_l. tauto.
Qed.

Lemma aliveCount_Permutation (P : option Role → Prop) `{!∀ r, Decision (P r)}
    (ps ps' : list Player) :
  ps ≡ₚ ps' → aliveCount P ps = aliveCount P ps'.
Proof. intros Hp. unfold aliveCount. by rewrite Hp. Qed.

(** X7. [checkWinCondition] depends on the ALIVE participants only and
    not on their order: dropping every participant that is not ALIVE,
    or reordering the list, does not change the result; when nobody is
    ALIVE the villagers win. *)
Theorem checkWinCondition_alive_only (players : list Player) :
  checkWinCondition (filter (λ p, Player.status p = ALIVE) players)
  = checkWinCondition players
  ∧ (∀ players', players ≡ₚ players' →
       checkWinCondition players' = checkWinCondition players)
  ∧ (Forall (λ p, Player.status p ≠ ALIVE) players →
     checkWinCondition players = Some Winner.VILLAGERS).
Proof.
  split_and!.
  - by rewrite !checkWinCondition_unfold, !aliveCount_alive.
  - intros players' Hp. rewrite !checkWinCondition_unfold.
    by rewrite !(aliveCount_Permutation _ players players').
  - intros Hdead. rewrite checkWinCondition_unfold.
    rewrite decide_True; [done|]. unfold aliveCount.
    induction Hdead as [|p ps Hp _ IH]; [done|].
    rewrite filter_cons, decide_False by tauto. exact IH.
Qed.

Lemma checkWinCondition_alive_only_witness :
  let ps := [Sample.player "a" MAFIA ELIMINATED;
             Sample.player "b" VILLAGER SPECTATOR] in
  checkWinCondition (filter (λ p, Player.status p = ALIVE) ps)
  = checkWinCondition ps
  ∧ checkWinCondition ps = Some Winner.VILLAGERS.
Proof.
  intros ps.
  destruct (checkWinCondition_alive_only ps) as (Halive & _ & Hdead).
  split; [exact Halive|]. apply Hdead. by_evaluation.
Defined.

(** * Further properties of the record store *)






Lemma filter_filter_ne {A} (key : A → string) (i j : string) (l : list A) :
  j ≠ i →
  filter (λ x, key x = j) (filter (λ x, key x ≠ i) l)
  = filter (λ x, key x = j) l.
Proof.
  intros Hne. apply list_filter_filter_l. intros x ->. done.
Qed.

Lemma filter_filter_eq_ne {A} (key : A → string) (i : string) (l : list A) :
  filter (λ x, key x = i) (filter (λ x, key x ≠ i) l) = [].
Proof.
  induction l as [|x l IH]; [done|].
  rewrite (filter_cons (λ x, key x ≠ i)).
  destruct (decide (key x ≠ i)) as [Hx|Hx]; [|done].
  by rewrite filter_cons, decide_False.
Qed.

(** X9. [deletePlayer] answers [true] exactly when the identifier was
    stored; afterwards the identifier is gone, every other identifier
    reads as before and no session is touched. *)
Theorem deletePlayer_spec (db : Storage) (i : string) :
  ((deletePlayer db i).1 = true ↔ is_Some (getPlayer db i))
  ∧ getPlayer (deletePlayer db i).2 i = None
  ∧ (∀ j, j ≠ i → getPlayer (deletePlayer db i).2 j = getPlayer db j)
  ∧ games (deletePlayer db i).2 = games db.
Proof.
  unfold deletePlayer, getPlayer. simpl. split_and!.
  - rewrite bool_decide_eq_true.
    destruct (filter _ (players db)) as [|p l]; simpl.
    + split; [lia|]. by intros [? ?].
    + split; [by eexists|lia].
  - by rewrite (filter_filter_eq_ne Player.id).
  - intros j Hj. by rewrite (filter_filter_ne Player.id).
  - done.
Qed.

(** X10. [deleteGame] answers [true] exactly when the session was
    stored and removes it, leaving the other sessions; it deletes no
    participant: the participants of the deleted session stay in the
    store. *)
Theorem deleteGame_spec (db : Storage) (i : string) :
  ((deleteGame db i).1 = true ↔ is_Some (getGame db i))
  ∧ getGame (deleteGame db i).2 i = None
  ∧ (∀ j, j ≠ i → getGame (deleteGame db i).2 j = getGame db j)
  ∧ getPlayersByGame (deleteGame db i).2 i = getPlayersByGame db i
  ∧ players (deleteGame db i).2 = players db.
Proof.
  unfold deleteGame, getGame, getPlayersByGame. simpl. split_and!.
  - rewrite bool_decide_eq_true.
    destruct (filter _ (games db)) as [|g l]; simpl.
    + split; [lia|]. by intros [? ?].
    + split; [by eexists|lia].
  - by rewrite (filter_filter_eq_ne Game.id).
  - intros j Hj. by rewrite (filter_filter_ne Game.id).
  - done.
  - done.
Qed.

(** X11. [deletePlayersByGame] empties the session and leaves the
    participants of every other session as they were, in order. *)
Theorem deletePlayersByGame_spec (db : Storage) (gid : string) :
  getPlayersByGame (deletePlayersByGame db gid) gid = []
  ∧ (∀ gid', gid' ≠ gid →
       getPlayersByGame (deletePlayersByGame db gid) gid'
       = getPlayersByGame db gid')
  ∧ games (deletePlayersByGame db gid) = games db.
Proof.
  unfold deletePlayersByGame, getPlayersByGame. simpl. split_and!.
  - by rewrite (filter_filter_eq_ne Player.gameId).
  - intros gid' Hne. by rewrite (filter_filter_ne Player.gameId).
  - done.
Qed.



(** * Further properties of the session handlers *)

(** ** Casting votes *)

Lemma getPlayer_Some (db : Storage) (i : string) (p : Player) :
  getPlayer db i = Some p → p ∈ players db ∧ Player.id p = i.
Proof.
  unfold getPlayer. intros Hhd. apply head_Some_elem_of in Hhd.
  apply list_elem_of_filter in Hhd. tauto.
Qed.








Lemma ballots_cons (p : Player) (l : list Player) (tgt : string) :
  Z.of_nat (ballots (p :: l) tgt)
  = names (truthy (Player.votedFor p)) tgt + Z.of_nat (ballots l tgt).
Proof.
  unfold ballots, names. rewrite filter_cons. case_decide; simpl; lia.
Qed.







(** ** Taking a night action *)

Lemma actionAllowed_table (r : option Role) (action : option string) :
  actionAllowed r action = true
  ↔ ∃ a, action = Some a ∧ (r, a) ∈ roleActionTable.
Proof.
  unfold actionAllowed, roleActionTable. split.
  - destruct r as [[]|], action as [a|]; simpl; try done;
      rewrite bool_decide_eq_true, list_elem_of_singleton; intros ->;
      eexists; (split; [done|]); set_solver.
  - intros (a & -> & Hin).
    rewrite !elem_of_cons, elem_of_nil in Hin.
    destruct Hin as [[= -> ->]|[[= -> ->]|[[= -> ->]|[]]]]; done.
Qed.


Lemma getPlayer_updatePlayer (db : Storage) (i : string)
    (updates : Player → Player) (p : Player) :
  (∀ q, Player.id (updates q) = Player.id q) →
  getPlayer db i = Some p →
  getPlayer (updatePlayer db i updates).2 i = Some (updates p).
Proof.
  intros Hid. unfold getPlayer, updatePlayer. simpl.
  rewrite (filter_fmap_update Player.id) by done.
  destruct (filter _ (players db)); [done|]. by intros [= ->].
Qed.

Lemma getPlayersByGame_elem_of (db : Storage) (gid : string) (p : Player) :
  p ∈ getPlayersByGame db gid ↔ p ∈ players db ∧ Player.gameId p = gid.
Proof. unfold getPlayersByGame. rewrite list_elem_of_filter. tauto. Qed.

Lemma takeAction_accepted (db : Storage) (gameId playerId : string)
    (action targetId : option string) :
  (takeAction db gameId playerId action targetId).1 = json_success →
  ∃ player a,
    getPlayer db playerId = Some player
    ∧ action = Some a ∧ (Player.role player, a) ∈ roleActionTable
    ∧ (takeAction db gameId playerId action targetId).2
      = (updatePlayer db playerId (Player.set_action action targetId)).2.
Proof.
  unfold takeAction.
  destruct (getGame db gameId) as [game|]; [|done].
  case_decide; [done|].
  destruct (getPlayer db playerId) as [player|]; [|done].
  case_decide; [done|].
  destruct (actionAllowed (Player.role player) action) eqn:Hallowed; [|done].
  apply actionAllowed_table in Hallowed as (a & Ha & Htab).
  intros _. by exists player, a.
Qed.

(** X16. An accepted action reaches the night resolution of the actor's
    session: after an accepted HEAL with a non-empty target, the target
    is in the protected-set; after an accepted KILL with a non-empty
    target, the target is in the elimination set exactly when it is
    outside the protected-set. *)
Theorem takeAction_feeds_resolution (db : Storage) (gameId playerId : string)
    (action targetId : option string) (player : Player) (tgt : string) :
  let r := takeAction db gameId playerId action targetId in
  r.1 = json_success →
  getPlayer db playerId = Some player →
  Player.gameId player = gameId →
  truthy targetId = Some tgt →
  let ps := getPlayersByGame r.2 gameId in
  (action = Some "HEAL" → tgt ∈ doctorSaves ps)
  ∧ (action = Some "KILL" → (tgt ∈ nightKills ps ↔ tgt ∉ doctorSaves ps)).
Proof.
  intros r Hok Hplayer Hgame Htgt ps.
  destruct (takeAction_accepted db gameId playerId action targetId Hok)
    as (player' & a & Hp' & Ha & Htab & Hdb).
  rewrite Hplayer in Hp'. injection Hp' as <-.
  assert (Hin : Player.set_action action targetId player ∈ ps).
  { subst ps r. rewrite Hdb. apply getPlayersByGame_elem_of. split; [|done].
    eapply getPlayer_Some. by apply getPlayer_updatePlayer. }
  unfold roleActionTable in Htab. rewrite !elem_of_cons, elem_of_nil in Htab.
  split.
  - intros ->. apply doctorSaves_spec.
    exists (Player.set_action (Some "HEAL") targetId player).
    destruct Htab as [[= Hr Hq]|[[= Hr Hq]|[[= Hr Hq]|[]]]];
      injection Ha as <-; try done.
  - intros ->. rewrite nightKills_spec.
    assert (Hm : ∃ m, m ∈ ps ∧ Player.role m = Some MAFIA
                      ∧ Player.lastAction m = Some "KILL"
                      ∧ truthy (Player.actionTarget m) = Some tgt).
    { exists (Player.set_action (Some "KILL") targetId player).
      destruct Htab as [[= Hr Hq]|[[= Hr Hq]|[[= Hr Hq]|[]]]];
        injection Ha as <-; try done. }
    tauto.
Qed.

Lemma takeAction_feeds_resolution_witness :
  let r := takeAction QuietNight.db "g1" "c" (Some "HEAL") (Some "b") in
  "b" ∈ doctorSaves (getPlayersByGame r.2 "g1").
Proof.
  intros r.
  by apply (takeAction_feeds_resolution QuietNight.db "g1" "c" (Some "HEAL")
              (Some "b") (Sample.player "c" DOCTOR ALIVE) "b").
Defined.

(** ** Ending a session *)

Lemma castVote_wrong_phase (db : Storage) (gameId playerId : string)
    (targetId : BodyField) (game : Game) :
  getGame db gameId = Some game → Game.currentPhase game ≠ VOTING →
  castVote db gameId playerId targetId
  = (status_json 400 "Voting not allowed at this time", db).
Proof. intros Hg Hph. unfold castVote. by rewrite Hg, decide_True. Qed.

Lemma takeAction_wrong_phase (db : Storage) (gameId playerId : string)
    (action targetId : option string) (game : Game) :
  getGame db gameId = Some game → Game.currentPhase game ≠ NIGHT →
  takeAction db gameId playerId action targetId
  = (status_json 400 "Actions not allowed at this time", db).
Proof. intros Hg Hph. unfold takeAction. by rewrite Hg, decide_True. Qed.

Lemma joinGame_wrong_phase (newId : string) (now : Z) (db : Storage)
    (gameId : string) (ins : InsertPlayer) (game : Game) :
  getGame db gameId = Some game →
  Game.isActive game = false ∨ Game.currentPhase game ≠ LOBBY →
  joinGame newId now db gameId ins
  = (join_status 400 "Cannot join game at this time", db).
Proof. intros Hg Hph. unfold joinGame. by rewrite Hg, decide_True. Qed.

(** X17. Ending a stored session works from every phase: the stored
    session becomes ENDED and inactive with countdown 0, keeps its day
    counter, log and narrative, and no participant is touched.  From
    then on every cast-vote, take-action and join request for the
    session is answered with status 400 and changes nothing. *)
Theorem endGame_terminal (now : Z) (db : Storage) (gameId : string)
    (game : Game) :
  getGame db gameId = Some game →
  let r := endGame now db gameId in
  ∃ game',
    r.1 = json_game (Some game')
    ∧ getGame r.2 gameId = Some game'
    ∧ Game.currentPhase game' = ENDED
    ∧ Game.isActive game' = false
    ∧ Game.timeRemaining game' = Some 0
    ∧ Game.dayNumber game' = Game.dayNumber game
    ∧ Game.gameLog game' = Game.gameLog game
    ∧ Game.narrative game' = Game.narrative game
    ∧ players r.2 = players db
    ∧ (∀ playerId targetId,
         castVote r.2 gameId playerId targetId
         = (status_json 400 "Voting not allowed at this time", r.2))
    ∧ (∀ playerId action targetId,
         takeAction r.2 gameId playerId action targetId
         = (status_json 400 "Actions not allowed at this time", r.2))
    ∧ (∀ newId now' playerData,
         joinGame newId now' r.2 gameId playerData
         = (join_status 400 "Cannot join game at this time", r.2)).
Proof.
  intros Hget r. subst r. unfold endGame. rewrite Hget.
  destruct (updateGame db gameId GameUpdate.set_ended now)
    as [updatedGame db'] eqn:Hupd.
  assert (Hret := updateGame_returns db gameId GameUpdate.set_ended now game Hget).
  assert (Hgg := updateGame_getGame db gameId GameUpdate.set_ended now
                   (λ g, eq_refl)).
  assert (Hpl := updateGame_players db gameId GameUpdate.set_ended now).
  rewrite Hupd in Hret, Hgg, Hpl. simpl in Hret, Hgg, Hpl. subst updatedGame.
  cbn [fst snd].
  exists (Game.set_updatedAt now (GameUpdate.set_ended game)).
  split_and!; try done.
  - intros. by apply (castVote_wrong_phase _ _ _ _ _ Hgg).
  - intros. by apply (takeAction_wrong_phase _ _ _ _ _ _ Hgg).
  - intros. apply (joinGame_wrong_phase _ _ _ _ _ _ Hgg). by left.
Qed.

Lemma endGame_terminal_witness :
  let r := endGame 10 QuietNight.db "g1" in
  (Game.currentPhase <$> getGame r.2 "g1") = Some ENDED
  ∧ takeAction r.2 "g1" "a" (Some "KILL") (Some "b")
    = (status_json 400 "Actions not allowed at this time", r.2).
Proof.
  intros r.
  destruct (endGame_terminal 10 QuietNight.db "g1" (Sample.game NIGHT 1) eq_refl)
    as (game' & _ & Hget & Hph & _ & _ & _ & _ & _ & _ & _ & Hact & _).
  fold r in Hget, Hact. split; [|apply Hact].
  by rewrite Hget, <- Hph.
Defined.

(** ** Joining a session *)

Lemma hosts_existsb (l : list Player) :
  existsb Player.isHost l = false ↔ hosts l = 0%nat.
Proof.
  unfold hosts. induction l as [|p l IH]; [done|].
  cbn [existsb]. rewrite filter_cons.
  destruct (decide (Player.isHost p = true)) as [Hp|Hp].
  - rewrite Hp. simpl. split; [done|lia].
  - apply not_true_is_false in Hp. rewrite Hp. exact IH.
Qed.

Lemma updateGame_getPlayersByGame (db : Storage) (i : string)
    (updates : Game → Game) (now : Z) (gid : string) :
  getPlayersByGame (updateGame db i updates now).2 gid = getPlayersByGame db gid.
Proof. done. Qed.


Lemma join_isHost (l : list Player) :
  bool_decide (length l = 0%nat) || negb (existsb Player.isHost l)
  = negb (existsb Player.isHost l).
Proof. by destruct l. Qed.

Lemma joinGame_accepted (newId : string) (now : Z) (db : Storage)
    (gameId : string) (playerData : InsertPlayer) (p : Player) :
  (joinGame newId now db gameId playerData).1 = json_player p →
  let isHost := negb (existsb Player.isHost (getPlayersByGame db gameId)) in
  let db1 := {| games := games db; players := players db ++ [p] |} in
  Player.id p = newId
  ∧ Player.gameId p = gameId
  ∧ Player.isHost p = isHost
  ∧ (joinGame newId now db gameId playerData).2
    = if isHost
      then (updateGame db1 gameId (GameUpdate.set_hostId newId) now).2
      else db1.
Proof.
  unfold joinGame.
  destruct (getGame db gameId) as [game|]; [|done].
  case_decide; [done|]. case_decide; [done|].
  rewrite join_isHost. unfold createPlayer. cbv zeta. cbn [fst snd Player.id].
  intros [= <-]. by split_and!.
Qed.

Lemma hosts_snoc (l : list Player) (p : Player) :
  hosts (l ++ [p]) = (hosts l + if Player.isHost p then 1 else 0)%nat.
Proof.
  unfold hosts. rewrite filter_app, length_app, filter_cons.
  destruct (Player.isHost p); by case_decide.
Qed.

(** X19. The first participant to join a session without a host
    becomes its host, whatever the request body says: an accepted
    joiner is host exactly when no participant of the session is, the
    session then has max(1, hosts before) hosts, so a session with at
    most one host has exactly one after a join; when the joiner
    becomes host the stored session names the joiner as its host, and
    otherwise no session row is touched. *)
Theorem joinGame_host (newId : string) (now : Z) (db : Storage)
    (gameId : string) (playerData : InsertPlayer) (p : Player) (game : Game) :
  let r := joinGame newId now db gameId playerData in
  r.1 = json_player p →
  getGame db gameId = Some game →
  (Player.isHost p = true ↔ hosts (getPlayersByGame db gameId) = 0%nat)
  ∧ hosts (getPlayersByGame r.2 gameId)
    = (1 `max` hosts (getPlayersByGame db gameId))%nat
  ∧ (Player.isHost p = true → Game.hostId <$> getGame r.2 gameId = Some newId)
  ∧ (Player.isHost p = false → games r.2 = games db).
Proof.
  intros r Hok Hget. subst r.
  destruct (joinGame_accepted newId now db gameId playerData p Hok)
    as (Hid & Hgid & Hhost & Hdb).
  set (existing := getPlayersByGame db gameId) in *.
  assert (Hiff : Player.isHost p = true ↔ hosts existing = 0%nat).
  { rewrite Hhost, <- hosts_existsb. by destruct (existsb _ _). }
  assert (Hby : getPlayersByGame (joinGame newId now db gameId playerData).2 gameId
                = existing ++ [p]).
  { rewrite Hdb. destruct (negb _); unfold getPlayersByGame; simpl;
      by rewrite filter_app, (filter_cons _ p), decide_True. }
  split_and!.
  - exact Hiff.
  - rewrite Hby, hosts_snoc. destruct (Player.isHost p).
    + rewrite (proj1 Hiff) by done. done.
    + assert (hosts existing ≠ 0%nat) by (intros H0; by apply Hiff in H0). lia.
  - intros Hp. rewrite Hdb, <- Hhost, Hp.
    rewrite updateGame_getGame by done.
    by rewrite (updateGame_returns _ _ _ _ game).
  - intros Hp. by rewrite Hdb, <- Hhost, Hp.
Qed.

Lemma joinGame_host_witness :
  let r := joinGame "e" 7 Lobby.db "g1" Lobby.eve in
  ∃ p, r.1 = json_player p
       ∧ Player.isHost p = true
       ∧ Game.hostId <$> getGame r.2 "g1" = Some "e".
Proof.
  intros r.
  set (p := Player.mk "e" "g1" "Eve" None ALIVE false true 0 None None None (Some 7)).
  destruct (joinGame_host "e" 7 Lobby.db "g1" Lobby.eve p (Sample.game LOBBY 1)
              eq_refl eq_refl) as (Hiff & _ & Hhost & _).
  exists p. split; [done|]. split; [done|]. by apply Hhost.
Defined.

(** ** Advancing the phase *)

(** What the next-phase handler answers and stores, in terms of the
    case of its [switch]. *)
Lemma nextPhase_advance
    (generateNarrative : NarrativeContext → string → string)
    (generateGameSummary : Winner.t → list Player → list string → string → GameSummary)
    (now : Z) (db : Storage) (gameId : string) (game : Game) :
  getGame db gameId = Some game →
  let adv := advanceCase generateGameSummary db gameId game in
  ∃ narrative,
    nextPhase generateNarrative generateGameSummary now db gameId
    = (json_game
         (updateGame (adv_db adv) gameId
            (Game.set_advanced (newPhase adv) (newDayNumber adv)
               (Some (newLog adv)) narrative
               (Some (if decide (newPhase adv = ENDED) then 0 else 300))) now).1,
       (updateGame (adv_db adv) gameId
          (Game.set_advanced (newPhase adv) (newDayNumber adv)
             (Some (newLog adv)) narrative
             (Some (if decide (newPhase adv = ENDED) then 0 else 300))) now).2).
Proof.
  intros Hget adv. unfold nextPhase. rewrite Hget. cbv zeta.
  fold (advanceCase generateGameSummary db gameId game). fold adv.
  eexists. unfold updateGame. reflexivity.
Qed.

Lemma applyNightKills_games (players : list Player) (db : Storage)
    (log : list string) :
  games (applyNightKills players (db, log)).1 = games db.
Proof. by rewrite applyNightKills_db, updatePlayers_games. Qed.

Lemma advanceCase_games
    (generateGameSummary : Winner.t → list Player → list string → string → GameSummary)
    (db : Storage) (gameId : string) (game : Game) :
  games (adv_db (advanceCase generateGameSummary db gameId game)) = games db.
Proof.
  unfold advanceCase. destruct (Game.currentPhase game); try done.
  - unfold advanceNight.
    pose proof (applyNightKills_games (getPlayersByGame db gameId) db
      (default [] (Game.gameLog game)
       ++ processNightActions (getPlayersByGame db gameId))) as Hg.
    destruct (applyNightKills _ _) as [db1 log1]. simpl in Hg.
    destruct (checkWinCondition _); cbn [adv_db];
      by rewrite updatePlayers_games.
  - unfold advanceVoting.
    destruct (mostVoted _ _) as [[e|] m];
      destruct (checkWinCondition _); cbn [adv_db];
      by rewrite updatePlayers_games.
Qed.

Lemma advanceCase_phase
    (generateGameSummary : Winner.t → list Player → list string → string → GameSummary)
    (db : Storage) (gameId : string) (game : Game) :
  let adv := advanceCase generateGameSummary db gameId game in
  newPhase adv ∈ successors (Game.currentPhase game)
  ∧ newDayNumber adv
    = Game.dayNumber game
      + (if decide (Game.currentPhase game = NIGHT ∧ newPhase adv = DAY)
         then 1 else 0).
Proof.
  unfold advanceCase. destruct (Game.currentPhase game) eqn:Hph; cbv zeta.
  - split; [set_solver|]. cbn [newPhase newDayNumber]. case_decide as Hc; [by destruct Hc|lia].
  - split; [set_solver|]. cbn [newPhase newDayNumber]. case_decide as Hc; [by destruct Hc|lia].
  - unfold advanceNight. destruct (applyNightKills _ _) as [db1 log1].
    destruct (checkWinCondition _); cbn [newPhase newDayNumber];
      (split; [set_solver|]); case_decide as Hc; try lia.
    + by destruct Hc.
    + destruct Hc. by split.
  - unfold advanceVoting. destruct (mostVoted _ _) as [[e|] m];
      destruct (checkWinCondition _); cbn [newPhase newDayNumber];
      (split; [set_solver|]); (case_decide as Hc; [by destruct Hc|lia]).
  - split; [set_solver|]. cbn [newPhase newDayNumber]. case_decide as Hc; [by destruct Hc|lia].
Qed.

(** X20. The next-phase handler follows a fixed transition table: from
    LOBBY it stays in LOBBY, from DAY it moves to VOTING, from VOTING to
    NIGHT or ENDED, from NIGHT to DAY or ENDED, and ENDED stays ENDED.
    The day counter grows by one exactly on NIGHT to DAY and is
    otherwise kept; the countdown is 0 when the new phase is ENDED and
    300 otherwise; the activity flag is never changed, so a session
    that ends by a win stays active.  This is for a session whose day
    counter, in NIGHT, is below the largest value of its column: the
    database refuses a larger one, and the handler then answers 500
    (not modelled). *)
Theorem nextPhase_transitions
    (generateNarrative : NarrativeContext → string → string)
    (generateGameSummary : Winner.t → list Player → list string → string → GameSummary)
    (now : Z) (db : Storage) (gameId : string) (game : Game) :
  getGame db gameId = Some game →
  (Game.currentPhase game = NIGHT → Game.dayNumber game < int4_max) →
  let r := nextPhase generateNarrative generateGameSummary now db gameId in
  ∃ game',
    r.1 = json_game (Some game')
    ∧ getGame r.2 gameId = Some game'
    ∧ Game.currentPhase game' ∈ successors (Game.currentPhase game)
    ∧ Game.dayNumber game'
      = Game.dayNumber game
        + (if decide (Game.currentPhase game = NIGHT
                      ∧ Game.currentPhase game' = DAY) then 1 else 0)
    ∧ Game.timeRemaining game'
      = Some (if decide (Game.currentPhase game' = ENDED) then 0 else 300)
    ∧ Game.isActive game' = Game.isActive game
    ∧ Game.updatedAt game' = Some now.
Proof.
  intros Hget Hrange r. subst r.
  destruct (nextPhase_advance generateNarrative generateGameSummary now db
              gameId game Hget) as (narrative & ->).
  set (adv := advanceCase generateGameSummary db gameId game).
  set (updates := Game.set_advanced _ _ _ _ _).
  assert (Hget1 : getGame (adv_db adv) gameId = Some game).
  { unfold getGame, adv. by rewrite advanceCase_games. }
  cbn [fst snd].
  rewrite (updateGame_getGame _ _ updates) by done.
  rewrite (updateGame_returns _ _ updates _ game Hget1).
  destruct (advanceCase_phase generateGameSummary db gameId game) as [Hsucc Hday].
  eexists. split; [done|]. split; [done|]. by split_and!.
Qed.

Lemma nextPhase_transitions_witness :
  ∃ game',
    getGame (TwoAttackers.after.2) "g1" = Some game'
    ∧ Game.currentPhase game' ∈ [DAY; ENDED]
    ∧ Game.updatedAt game' = Some 10.
Proof.
  destruct (nextPhase_transitions Sample.narrate Sample.summarise 10
              TwoAttackers.db "g1" (Sample.game NIGHT 1) eq_refl (λ _, eq_refl))
    as (game' & _ & Hget & Hsucc & _ & _ & _ & Hupd).
  exists game'. split; [exact Hget|]. split; [exact Hsucc|exact Hupd].
Defined.

Lemma advanceVoting_players
    (generateGameSummary : Winner.t → list Player → list string → string → GameSummary)
    (db : Storage) (gameId : string) (game : Game) (ps : list Player)
    (log0 : list string) :
  players (adv_db (advanceVoting generateGameSummary db gameId game ps log0))
  = (λ q, updateRow Player.id (λ _, resetVote)
            (filter (λ p, Player.status p = ALIVE) ps)
            (voteElimination
               (mostVoted ps (tallyVotes (filter (λ p, Player.status p = ALIVE) ps))).1
               q))
    <$> players db.
Proof.
  unfold advanceVoting.
  destruct (mostVoted _ _) as [[e|] m]; destruct (checkWinCondition _);
    cbn [adv_db fst voteElimination];
    rewrite updatePlayers_players; cbn [updatePlayer snd players];
    rewrite <- ?list_fmap_compose; done.
Qed.

Lemma sameParticipant_refl (p : Player) : sameParticipant p p.
Proof. unfold sameParticipant. by split_and!; try left. Qed.

Lemma sameParticipant_trans (p p' p'' : Player) :
  sameParticipant p p' → sameParticipant p' p'' → sameParticipant p p''.
Proof.
  unfold sameParticipant.
  intros (H1 & H2 & H3 & H4 & H5 & H6 & H7 & H8)
         (G1 & G2 & G3 & G4 & G5 & G6 & G7 & G8).
  split_and!; try congruence.
  destruct G8 as [G8|G8]; [|by right]. rewrite G8. exact H8.
Qed.

Lemma updateRow_sameParticipant {X} (key : X → string)
    (upd : X → Player → Player) (xs : list X) (p : Player) :
  (∀ x q, sameParticipant q (upd x q)) →
  sameParticipant p (updateRow key upd xs p).
Proof.
  intros Hupd. revert p. induction xs as [|x xs IH]; intros p.
  - apply sameParticipant_refl.
  - rewrite updateRow_cons. case_decide; [|apply IH].
    eapply sameParticipant_trans; [apply Hupd|apply IH].
Qed.

Lemma voteElimination_sameParticipant (e : option Player) (q : Player) :
  sameParticipant q (voteElimination e q).
Proof.
  unfold voteElimination. destruct e as [e|]; [|apply sameParticipant_refl].
  case_decide; [|apply sameParticipant_refl].
  unfold sameParticipant. by split_and!; try right.
Qed.

Lemma advanceCase_sameParticipant
    (generateGameSummary : Winner.t → list Player → list string → string → GameSummary)
    (db : Storage) (gameId : string) (game : Game) :
  Forall2 sameParticipant (players db)
    (players (adv_db (advanceCase generateGameSummary db gameId game))).
Proof.
  assert (Hrefl : Forall2 sameParticipant (players db) (players db)).
  { apply Forall_Forall2_diag, Forall_forall. intros p _.
    apply sameParticipant_refl. }
  unfold advanceCase. destruct (Game.currentPhase game); try exact Hrefl.
  - rewrite advanceNight_players. apply Forall2_fmap_r.
    apply Forall_Forall2_diag, Forall_forall. intros p _. simpl.
    eapply sameParticipant_trans.
    2: { apply (updateRow_sameParticipant Player.id).
         intros x q. unfold sameParticipant. by split_and!; try left. }
    apply (updateRow_sameParticipant (λ tgt : string, tgt)).
    intros x q. unfold sameParticipant. by split_and!; try right.
  - rewrite advanceVoting_players. apply Forall2_fmap_r.
    apply Forall_Forall2_diag, Forall_forall. intros p _. simpl.
    eapply sameParticipant_trans.
    2: { apply (updateRow_sameParticipant Player.id).
         intros x q. unfold sameParticipant, resetVote. by split_and!; try left. }
    apply voteElimination_sameParticipant.
Qed.

Lemma nextPhase_players
    (generateNarrative : NarrativeContext → string → string)
    (generateGameSummary : Winner.t → list Player → list string → string → GameSummary)
    (now : Z) (db : Storage) (gameId : string) (game : Game) :
  getGame db gameId = Some game →
  players (nextPhase generateNarrative generateGameSummary now db gameId).2
  = players (adv_db (advanceCase generateGameSummary db gameId game)).
Proof.
  intros Hget.
  destruct (nextPhase_advance generateNarrative generateGameSummary now db
              gameId game Hget) as (narrative & ->).
  done.
Qed.

Lemma sameParticipant_identity (l l' : list Player) :
  Forall2 sameParticipant l l' → identity <$> l' = identity <$> l.
Proof.
  induction 1 as [|p p' l l' Hp _ IH]; [done|].
  rewrite !fmap_cons, IH. f_equal.
  destruct Hp as (H1 & H2 & H3 & H4 & H5 & H6 & H7 & _).
  unfold identity. by rewrite H1, H2, H3, H4, H5, H6, H7.
Qed.

(** X21. A next-phase request never adds or removes a participant and
    never changes an identifier, session, name, role, readiness, host
    flag or join time: as far as these go, the rows after the request
    are the rows before it, in some order.  A status either stays as it
    was or becomes ELIMINATED, so nobody is ever revived.  This holds
    for every row of the store and every request, also one that is
    answered with "Game not found". *)
Theorem nextPhase_sameParticipants
    (generateNarrative : NarrativeContext → string → string)
    (generateGameSummary : Winner.t → list Player → list string → string → GameSummary)
    (now : Z) (db : Storage) (gameId : string) :
  let db' := (nextPhase generateNarrative generateGameSummary now db gameId).2 in
  identity <$> players db' ≡ₚ identity <$> players db
  ∧ (∀ p', p' ∈ players db' → ∃ p, p ∈ players db ∧ sameParticipant p p')
  ∧ (∀ p, p ∈ players db → ∃ p', p' ∈ players db' ∧ sameParticipant p p').
Proof.
  intros db'.
  assert (Hrows : Forall2 sameParticipant (players db) (players db')).
  { subst db'. destruct (getGame db gameId) as [game|] eqn:Hget.
    - rewrite (nextPhase_players _ _ _ _ _ game Hget).
      apply advanceCase_sameParticipant.
    - unfold nextPhase. rewrite Hget. simpl.
      apply Forall_Forall2_diag, Forall_forall. intros p _.
      apply sameParticipant_refl. }
  split_and!.
  - by rewrite (sameParticipant_identity _ _ Hrows).
  - intros p' Hp'. apply list_elem_of_lookup in Hp' as [k Hk].
    destruct (Forall2_lookup_r _ _ _ _ _ Hrows Hk) as (p & Hp & Hsame).
    exists p. split; [|done]. apply list_elem_of_lookup. by exists k.
  - intros p Hp. apply list_elem_of_lookup in Hp as [k Hk].
    destruct (Forall2_lookup_l _ _ _ _ _ Hrows Hk) as (p' & Hp' & Hsame).
    exists p'. split; [|done]. apply list_elem_of_lookup. by exists k.
Qed.

Lemma updateRow_keeps {X} (key : X → string) (upd : X → Player → Player)
    (xs : list X) (Q : Player → Prop) (p : Player) :
  (∀ x q, Q q → Q (upd x q)) → Q p → Q (updateRow key upd xs p).
Proof.
  intros Hupd. revert p. induction xs as [|x xs IH]; intros p Hp; [done|].
  rewrite updateRow_cons. apply IH. case_decide; [by apply Hupd|done].
Qed.

Lemma updateRow_hit {X} (key : X → string) (upd : X → Player → Player)
    (xs : list X) (Q : Player → Prop) (p : Player) :
  (∀ x q, Q (upd x q)) →
  Player.id p ∈ key <$> xs → Q (updateRow key upd xs p).
Proof.
  intros Hupd. revert p. induction xs as [|x xs IH]; intros p Hin.
  - by apply elem_of_nil in Hin.
  - rewrite updateRow_cons. rewrite fmap_cons, elem_of_cons in Hin.
    destruct (decide (Player.id p = key x)) as [Hx|Hx].
    + apply updateRow_keeps; [intros y q _; apply Hupd|apply Hupd].
    + apply IH. by destruct Hin.
Qed.

(** X22. After a next-phase request on a session in VOTING, every
    participant of the session that was ALIVE before the request, the
    one voted out included, has vote counter 0 and no vote. *)
Theorem nextPhase_VOTING_resets_votes
    (generateNarrative : NarrativeContext → string → string)
    (generateGameSummary : Winner.t → list Player → list string → string → GameSummary)
    (now : Z) (db : Storage) (gameId : string) (game : Game) :
  getGame db gameId = Some game →
  Game.currentPhase game = VOTING →
  let r := nextPhase generateNarrative generateGameSummary now db gameId in
  ∀ k q, players db !! k = Some q →
         Player.gameId q = gameId → Player.status q = ALIVE →
         ∃ q', players r.2 !! k = Some q'
               ∧ Player.id q' = Player.id q
               ∧ Player.votes q' = 0 ∧ Player.votedFor q' = None.
Proof.
  intros Hget Hphase r k q Hk Hgid Halive. subst r.
  rewrite (nextPhase_players _ _ _ _ _ game Hget).
  unfold advanceCase. rewrite Hphase.
  rewrite advanceVoting_players, list_lookup_fmap, Hk. simpl.
  eexists. split; [done|].
  set (q1 := voteElimination _ q).
  assert (Hid1 : Player.id q1 = Player.id q).
  { subst q1. unfold voteElimination. destruct (mostVoted _ _).1; [|done].
    by case_decide. }
  split.
  - rewrite <- Hid1.
    apply (updateRow_keeps Player.id (λ _, resetVote) _
             (λ p, Player.id p = Player.id q1)); done.
  - apply (updateRow_hit Player.id (λ _, resetVote) _
             (λ p, Player.votes p = 0 ∧ Player.votedFor p = None)); [done|].
    rewrite Hid1. apply list_elem_of_fmap_2, list_elem_of_filter.
    split; [done|]. apply getPlayersByGame_elem_of. split; [|done].
    apply list_elem_of_lookup. by exists k.
Qed.

Lemma nextPhase_VOTING_resets_votes_witness :
  ∃ q', players (TieVote.after.2) !! 2%nat = Some q'
        ∧ Player.id q' = "c" ∧ Player.votes q' = 0 ∧ Player.votedFor q' = None.
Proof.
  destruct (nextPhase_VOTING_resets_votes Sample.narrate Sample.summarise 10
              TieVote.db "g1" (Sample.game VOTING 1) eq_refl eq_refl 2%nat
              (Sample.voting "b" (Sample.player "c" DOCTOR ALIVE))
              eq_refl eq_refl eq_refl) as (q' & Hq & Hid & Hv & Hvf).
  by exists q'.
Defined.

(** X23. After a next-phase request on a session in NIGHT, no
    participant of the session holds a pending action or target any
    more, whether or not the action took effect. *)
Theorem nextPhase_NIGHT_clears_actions
    (generateNarrative : NarrativeContext → string → string)
    (generateGameSummary : Winner.t → list Player → list string → string → GameSummary)
    (now : Z) (db : Storage) (gameId : string) (game : Game) :
  getGame db gameId = Some game →
  Game.currentPhase game = NIGHT →
  let r := nextPhase generateNarrative generateGameSummary now db gameId in
  ∀ k q, players db !! k = Some q → Player.gameId q = gameId →
         ∃ q', players r.2 !! k = Some q'
               ∧ Player.id q' = Player.id q
               ∧ Player.lastAction q' = None ∧ Player.actionTarget q' = None.
Proof.
  intros Hget Hphase r k q Hk Hgid. subst r.
  rewrite (nextPhase_players _ _ _ _ _ game Hget).
  unfold advanceCase. rewrite Hphase.
  rewrite advanceNight_players, list_lookup_fmap, Hk. simpl.
  eexists. split; [done|].
  set (q1 := updateRow (λ tgt : string, tgt) _ _ q).
  assert (Hid1 : Player.id q1 = Player.id q).
  { subst q1.
    apply (updateRow_keeps (λ tgt : string, tgt)
             (λ _, Player.set_status ELIMINATED) _
             (λ p, Player.id p = Player.id q)); done. }
  split.
  - rewrite <- Hid1.
    apply (updateRow_keeps Player.id (λ _, Player.set_action None None) _
             (λ p, Player.id p = Player.id q1)); done.
  - apply (updateRow_hit Player.id (λ _, Player.set_action None None) _
             (λ p, Player.lastAction p = None ∧ Player.actionTarget p = None));
      [done|].
    rewrite Hid1. apply list_elem_of_fmap_2.
    apply getPlayersByGame_elem_of. split; [|done].
    apply list_elem_of_lookup. by exists k.
Qed.

Lemma nextPhase_NIGHT_clears_actions_witness :
  ∃ q', players (TwoAttackers.after.2) !! 0%nat = Some q'
        ∧ Player.id q' = "a"
        ∧ Player.lastAction q' = None ∧ Player.actionTarget q' = None.
Proof.
  destruct (nextPhase_NIGHT_clears_actions Sample.narrate Sample.summarise 10
              TwoAttackers.db "g1" (Sample.game NIGHT 1) eq_refl eq_refl 0%nat
              (Sample.acting "KILL" "c" (Sample.player "a" MAFIA ALIVE))
              eq_refl eq_refl) as (q' & Hq & Hid & Hla & Hat).
  by exists q'.
Defined.

Lemma advanceCase_winner
    (generateGameSummary : Winner.t → list Player → list string → string → GameSummary)
    (db : Storage) (gameId : string) (game : Game) :
  Game.currentPhase game = VOTING ∨ Game.currentPhase game = NIGHT →
  let adv := advanceCase generateGameSummary db gameId game in
  match checkWinCondition (getPlayersByGame (adv_db adv) gameId) with
  | Some w =>
      newPhase adv = ENDED
      ∧ last (newLog adv) = Some ("Game ended - " +:+ Winner.str w +:+ " wins!")
  | None => newPhase adv ≠ ENDED
  end.
Proof.
  intros Hph. unfold advanceCase.
  destruct Hph as [-> | ->].
  - unfold advanceVoting. destruct (mostVoted _ _) as [[e|] m];
      (match goal with
       | |- context [adv_db (match checkWinCondition ?x with _ => _ end)] =>
           destruct (checkWinCondition x) as [w|] eqn:Hw
       end; cbn [adv_db newPhase newLog];
       rewrite Hw; [by rewrite last_snoc|done]).
  - unfold advanceNight. destruct (applyNightKills _ _) as [db1 log1].
    match goal with
    | |- context [adv_db (match checkWinCondition ?x with _ => _ end)] =>
        destruct (checkWinCondition x) as [w|] eqn:Hw
    end; cbn [adv_db newPhase newLog];
      rewrite Hw; [by rewrite last_snoc|done].
Qed.

(** X24. The win condition is evaluated on the participants as they are
    after every VOTING and every NIGHT: the stored session becomes
    ENDED exactly when [checkWinCondition] names a winner among the
    session's participants of the resulting store, and then the last
    log entry announces that winner. *)
Theorem nextPhase_ENDED_iff_winner
    (generateNarrative : NarrativeContext → string → string)
    (generateGameSummary : Winner.t → list Player → list string → string → GameSummary)
    (now : Z) (db : Storage) (gameId : string) (game : Game) :
  getGame db gameId = Some game →
  Game.currentPhase game = VOTING ∨ Game.currentPhase game = NIGHT →
  let r := nextPhase generateNarrative generateGameSummary now db gameId in
  ∃ game',
    getGame r.2 gameId = Some game'
    ∧ (Game.currentPhase game' = ENDED
       ↔ is_Some (checkWinCondition (getPlayersByGame r.2 gameId)))
    ∧ (∀ w, checkWinCondition (getPlayersByGame r.2 gameId) = Some w →
            ∃ log, Game.gameLog game' = Some log
                   ∧ last log = Some ("Game ended - " +:+ Winner.str w +:+ " wins!")).
Proof.
  intros Hget Hph r. subst r.
  pose proof (advanceCase_winner generateGameSummary db gameId game Hph) as Hw.
  cbv zeta in Hw.
  assert (Hby : getPlayersByGame
                  (nextPhase generateNarrative generateGameSummary now db gameId).2
                  gameId
                = getPlayersByGame
                    (adv_db (advanceCase generateGameSummary db gameId game)) gameId).
  { unfold getPlayersByGame. by rewrite (nextPhase_players _ _ _ _ _ game Hget). }
  rewrite Hby.
  destruct (nextPhase_advance generateNarrative generateGameSummary now db
              gameId game Hget) as (narrative & ->).
  set (adv := advanceCase generateGameSummary db gameId game) in *.
  set (updates := Game.set_advanced _ _ _ _ _).
  assert (Hget1 : getGame (adv_db adv) gameId = Some game).
  { unfold getGame, adv. by rewrite advanceCase_games. }
  cbn [fst snd].
  rewrite (updateGame_getGame _ _ updates) by done.
  rewrite (updateGame_returns _ _ updates _ game Hget1).
  eexists. split; [done|]. cbn [Game.currentPhase Game.gameLog Game.set_updatedAt].
  destruct (checkWinCondition _) as [w|].
  - destruct Hw as [Hended Hlast]. split.
    + split; [by eexists|done].
    + intros w' [= <-]. by eexists.
  - split; [|done]. split; [done|]. by intros [? ?].
Qed.

Lemma nextPhase_ENDED_iff_winner_witness :
  ∃ game',
    getGame (TieVote.after.2) "g1" = Some game'
    ∧ (Game.currentPhase game' = ENDED
       ↔ is_Some (checkWinCondition (getPlayersByGame (TieVote.after.2) "g1"))).
Proof.
  destruct (nextPhase_ENDED_iff_winner Sample.narrate Sample.summarise 10
              TieVote.db "g1" (Sample.game VOTING 1) eq_refl (or_introl eq_refl))
    as (game' & Hget & Hiff & _).
  by exists game'.
Defined.

Lemma applyNightKills_log (players : list Player) (db : Storage)
    (log : list string) :
  log `prefix_of` (applyNightKills players (db, log)).2.
Proof.
  unfold applyNightKills. generalize (mafiaActions players) as ms.
  intros ms. revert db log. induction ms as [|m ms IH]; intros db log; [done|].
  cbn [foldl]. cbv beta iota.
  destruct (truthy (Player.actionTarget m)) as [tgt|]; [|apply IH].
  destruct (decide (tgt ∉ doctorSaves players)); [|apply IH].
  destruct (findPlayer players tgt) as [target|]; [|apply IH].
  etrans; [|apply IH]. by apply prefix_app_r.
Qed.

Lemma advanceCase_log
    (generateGameSummary : Winner.t → list Player → list string → string → GameSummary)
    (db : Storage) (gameId : string) (game : Game) :
  let adv := advanceCase generateGameSummary db gameId game in
  let log0 := default [] (Game.gameLog game) in
  log0 `prefix_of` newLog adv
  ∧ (Game.currentPhase game ∈ [LOBBY; ENDED] → newLog adv = log0)
  ∧ (Game.currentPhase game = DAY →
     newLog adv = log0 ++ ["Day " +:+ pretty (Game.dayNumber game)
                             +:+ " voting phase begins"])
  ∧ (Game.currentPhase game = VOTING →
     (length log0 < length (newLog adv) ≤ length log0 + 2)%nat)
  ∧ (Game.currentPhase game = NIGHT →
     (log0 ++ processNightActions (getPlayersByGame db gameId))
       `prefix_of` newLog adv).
Proof.
  assert (Hnot : ∀ ph : Phase, ph ≠ LOBBY → ph ≠ ENDED → ph ∈ [LOBBY; ENDED] → False).
  { intros ph H1 H2. rewrite !elem_of_cons, elem_of_nil. tauto. }
  unfold advanceCase. destruct (Game.currentPhase game) eqn:Hph; cbv zeta.
  - cbn [newLog]. by split_and!.
  - cbn [newLog]. split_and!; try done; [by apply prefix_app_r|].
    intros Hin. by destruct (Hnot DAY).
  - unfold advanceNight.
    pose proof (applyNightKills_log (getPlayersByGame db gameId) db
      (default [] (Game.gameLog game)
       ++ processNightActions (getPlayersByGame db gameId))) as Hlog.
    destruct (applyNightKills _ _) as [db1 log1]. simpl in Hlog.
    assert (Hpre : default [] (Game.gameLog game) `prefix_of` log1)
      by (etrans; [|exact Hlog]; by apply prefix_app_r).
    destruct (checkWinCondition _); cbn [newLog]; split_and!; try done.
    + etrans; [exact Hpre|]. by apply prefix_app_r.
    + intros Hin. by destruct (Hnot NIGHT).
    + intros _. etrans; [exact Hlog|]. by apply prefix_app_r.
    + intros Hin. by destruct (Hnot NIGHT).
  - unfold advanceVoting. destruct (mostVoted _ _) as [[e|] m];
      destruct (checkWinCondition _); cbn [newLog]; split_and!; try done;
      try (rewrite <- ?app_assoc; by apply prefix_app_r);
      try (intros Hin; by destruct (Hnot VOTING));
      intros _; rewrite !length_app; simpl; lia.
  - cbn [newLog]. by split_and!.
Qed.

(** X25. The log of a session only grows under next-phase: the stored
    log starts with the entries it had.  From LOBBY or ENDED nothing is
    added; from DAY exactly the entry "Day N voting phase begins"; from
    VOTING one or two entries; from NIGHT first the events of
    [processNightActions], then whatever follows.  This is for a
    session whose day counter, in NIGHT, is below the largest value of
    its column: the database refuses a larger one, and the log of that
    night is then not stored (not modelled). *)
Theorem nextPhase_log_grows
    (generateNarrative : NarrativeContext → string → string)
    (generateGameSummary : Winner.t → list Player → list string → string → GameSummary)
    (now : Z) (db : Storage) (gameId : string) (game : Game) :
  getGame db gameId = Some game →
  (Game.currentPhase game = NIGHT → Game.dayNumber game < int4_max) →
  let r := nextPhase generateNarrative generateGameSummary now db gameId in
  let log0 := default [] (Game.gameLog game) in
  ∃ game' log,
    getGame r.2 gameId = Some game'
    ∧ Game.gameLog game' = Some log
    ∧ log0 `prefix_of` log
    ∧ (Game.currentPhase game ∈ [LOBBY; ENDED] → log = log0)
    ∧ (Game.currentPhase game = DAY →
       log = log0 ++ ["Day " +:+ pretty (Game.dayNumber game)
                        +:+ " voting phase begins"])
    ∧ (Game.currentPhase game = VOTING →
       (length log0 < length log ≤ length log0 + 2)%nat)
    ∧ (Game.currentPhase game = NIGHT →
       (log0 ++ processNightActions (getPlayersByGame db gameId))
         `prefix_of` log).
Proof.
  intros Hget _ r log0. subst r.
  destruct (nextPhase_advance generateNarrative generateGameSummary now db
              gameId game Hget) as (narrative & ->).
  set (adv := advanceCase generateGameSummary db gameId game).
  set (updates := Game.set_advanced _ _ _ _ _).
  assert (Hget1 : getGame (adv_db adv) gameId = Some game).
  { unfold getGame, adv. by rewrite advanceCase_games. }
  cbn [fst snd].
  rewrite (updateGame_getGame _ _ updates) by done.
  rewrite (updateGame_returns _ _ updates _ game Hget1).
  exists (Game.set_updatedAt now (updates game)), (newLog adv).
  split; [done|]. split; [done|].
  apply (advanceCase_log generateGameSummary db gameId game).
Qed.

Lemma nextPhase_log_grows_witness :
  ∃ game' log,
    getGame (TwoAttackers.after.2) "g1" = Some game'
    ∧ Game.gameLog game' = Some log
    ∧ [evProtected; evSurvived; evEliminated] `prefix_of` log.
Proof.
  destruct (nextPhase_log_grows Sample.narrate Sample.summarise 10
              TwoAttackers.db "g1" (Sample.game NIGHT 1) eq_refl (λ _, eq_refl))
    as (game' & log & Hget & Hlog & _ & _ & _ & _ & Hnight).
  exists game', log. split; [exact Hget|]. split; [exact Hlog|].
  by apply Hnight.
Defined.

(** ** Roles after the start *)

Lemma startGame_players
    (generateNarrative : NarrativeContext → string → string)
    (rand : nat → nat) (now : Z) (db : Storage) (gameId : string) (game : Game) :
  getGame db gameId = Some game →
  (4 ≤ length (getPlayersByGame db gameId))%nat →
  forallb Player.isReady (getPlayersByGame db gameId) = true →
  players (startGame generateNarrative rand now db gameId).2
  = updateRow RoleAssignment.playerId
      (λ a, Player.set_role (Some (RoleAssignment.role a)))
      (assignRoles rand (getPlayersByGame db gameId)
         (default (calculateRoleDistribution
                     (Z.of_nat (length (getPlayersByGame db gameId))))
                  (Game.roleDistribution game)))
    <$> players db.
Proof.
  intros Hget Hlen Hready. unfold startGame. rewrite Hget.
  rewrite decide_False by lia. rewrite Hready. cbn [negb]. cbv zeta.
  destruct (updateGame _ _ _ _) as [updatedGame db2] eqn:Hupd.
  apply (f_equal snd) in Hupd. cbn [snd] in *. subst db2.
  by rewrite updateGame_players, updatePlayers_players.
Qed.

Lemma filter_gameId_fmap (f : Player → Player) (gid : string) (l : list Player) :
  (∀ p, Player.gameId (f p) = Player.gameId p) →
  filter (λ p, Player.gameId p = gid) (f <$> l)
  = f <$> filter (λ p, Player.gameId p = gid) l.
Proof.
  intros Hf. induction l as [|p l IH]; [done|].
  rewrite fmap_cons, !filter_cons, Hf, IH. by case_decide.
Qed.

Lemma updateRow_unique {X} (key : X → string) (upd : X → Player → Player)
    (xs : list X) (i : nat) (x : X) (p : Player) :
  (∀ y q, Player.id (upd y q) = Player.id q) →
  NoDup (key <$> xs) → xs !! i = Some x → Player.id p = key x →
  updateRow key upd xs p = upd x p.
Proof.
  intros Hid. revert i p. induction xs as [|y ys IH]; intros i p Hnd Hi Hp; [done|].
  rewrite fmap_cons in Hnd. apply NoDup_cons in Hnd as [Hy Hnd].
  rewrite updateRow_cons. destruct i as [|i]; simpl in Hi.
  - injection Hi as ->. rewrite decide_True by done.
    assert (Hskip : ∀ q, Player.id q = key x → updateRow key upd ys q = q).
    { clear IH. intros q Hq. induction ys as [|z zs IHz]; [done|].
      rewrite updateRow_cons, decide_False.
      - apply IHz; [by rewrite fmap_cons, not_elem_of_cons in Hy; apply Hy|].
        rewrite fmap_cons in Hnd. by apply NoDup_cons in Hnd as [_ ?].
      - rewrite Hq. rewrite fmap_cons, not_elem_of_cons in Hy. apply Hy. }
    apply Hskip. by rewrite Hid.
  - rewrite decide_False.
    + by apply (IH i).
    + rewrite Hp. intros Heq. apply Hy. rewrite <- Heq.
      apply list_elem_of_fmap_2. apply list_elem_of_lookup. by exists i.
Qed.

Lemma calculateRoleDistribution_slots (n : nat) :
  (n ≤ length (roleSlots (calculateRoleDistribution (Z.of_nat n))))%nat.
Proof.
  unfold calculateRoleDistribution. cbn [roleSlots].
  rewrite !length_app, !length_replicate. simpl.
  pose proof (Z.div_mod (Z.of_nat n) 3 ltac:(lia)) as Hdm.
  pose proof (Z.mod_pos_bound (Z.of_nat n) 3 ltac:(lia)) as Hmod. lia.
Qed.

(** X26. After a successful start every participant of the session
    holds a role when the distribution in force has at least as many
    slots as there are participants; that is always so for the default
    distribution, which is used when the session stores none.  When the
    participants' identifiers are distinct, the roles they hold are,
    up to order, exactly the first N slots of the distribution. *)
Theorem startGame_assigns_roles
    (generateNarrative : NarrativeContext → string → string)
    (rand : nat → nat) (now : Z) (db : Storage) (gameId : string) (game : Game) :
  getGame db gameId = Some game →
  (4 ≤ length (getPlayersByGame db gameId))%nat →
  forallb Player.isReady (getPlayersByGame db gameId) = true →
  let ps := getPlayersByGame db gameId in
  let dist := default (calculateRoleDistribution (Z.of_nat (length ps)))
                      (Game.roleDistribution game) in
  let r := startGame generateNarrative rand now db gameId in
  Game.roleDistribution game = None ∨ (length ps ≤ length (roleSlots dist))%nat →
  length (getPlayersByGame r.2 gameId) = length ps
  ∧ (∀ p, p ∈ getPlayersByGame r.2 gameId → is_Some (Player.role p))
  ∧ (NoDup (Player.id <$> ps) →
     Player.role <$> getPlayersByGame r.2 gameId
     ≡ₚ Some <$> take (length ps) (roleSlots dist)).
Proof.
  intros Hget Hlen Hready ps dist r Hslots'. subst r.
  assert (Hslots : (length ps ≤ length (roleSlots dist))%nat).
  { destruct Hslots' as [Hnone|?]; [|done]. subst dist. rewrite Hnone. simpl.
    apply calculateRoleDistribution_slots. }
  clear Hslots'.
  pose proof (startGame_players generateNarrative rand now db gameId game
                Hget Hlen Hready) as Hplayers.
  fold ps in Hplayers. fold dist in Hplayers.
  set (f := updateRow RoleAssignment.playerId
              (λ a, Player.set_role (Some (RoleAssignment.role a)))
              (assignRoles rand ps dist)) in *.
  assert (Hby : getPlayersByGame
                  (startGame generateNarrative rand now db gameId).2 gameId
                = f <$> ps).
  { unfold getPlayersByGame at 1. rewrite Hplayers.
    apply filter_gameId_fmap. intros p. unfold f.
    apply (updateRow_keeps _ _ _ (λ q, Player.gameId q = Player.gameId p)); done. }
  rewrite Hby.
  pose proof (shuffle_Permutation rand ps) as Hperm.
  assert (Hids : RoleAssignment.playerId <$> assignRoles rand ps dist
                 = Player.id <$> shuffle rand ps).
  { rewrite assignRoles_zip, assignments_playerIds.
    apply take_ge. rewrite length_fmap, Hperm. exact Hslots. }
  split_and!.
  - by rewrite length_fmap.
  - intros p' Hp'. apply list_elem_of_fmap in Hp' as (p & -> & Hp).
    unfold f. apply (updateRow_hit _ _ _ (λ q, is_Some (Player.role q))).
    + intros a q. by eexists.
    + rewrite Hids, Hperm. by apply list_elem_of_fmap_2.
  - intros Hnd. rewrite <- Hperm at 1.
    assert (Heq : Player.role <$> (f <$> shuffle rand ps)
                  = Some <$> take (length ps) (roleSlots dist)).
    { apply list_eq. intros i. rewrite !list_lookup_fmap.
      destruct (shuffle rand ps !! i) as [p|] eqn:Hp; simpl.
      - assert (Hi : (i < length ps)%nat)
          by (rewrite <- Hperm; by eapply lookup_lt_Some).
        destruct (roleSlots dist !! i) as [ro|] eqn:Hro.
        2: { apply lookup_ge_None_1 in Hro. lia. }
        rewrite lookup_take_lt, Hro by done. simpl. f_equal.
        unfold f.
        rewrite (updateRow_unique _ _ _ i (RoleAssignment.mk (Player.id p) ro));
          try done.
        + rewrite Hids. by rewrite Hperm.
        + rewrite assignRoles_zip, lookup_zip_with, Hp. simpl. by rewrite Hro.
      - apply lookup_ge_None_1 in Hp. rewrite Hperm in Hp.
        symmetry. rewrite lookup_take_ge; [done|lia]. }
    by rewrite Heq.
Qed.

Lemma startGame_assigns_roles_witness :
  (∀ p, p ∈ getPlayersByGame (Restart.after.2) "g1" → is_Some (Player.role p))
  ∧ Player.role <$> getPlayersByGame (Restart.after.2) "g1"
    ≡ₚ [Some VILLAGER; Some DOCTOR; Some DETECTIVE; Some MAFIA].
Proof.
  destruct (startGame_assigns_roles Sample.narrate (λ i, i) 10 Restart.db "g1"
              (Sample.game NIGHT 3) eq_refl) as (_ & Hroles & Hperm).
  - vm_compute. lia.
  - reflexivity.
  - by left.
  - split; [exact Hroles|]. apply Hperm. by_evaluation.
Defined.

(** ** The tally of a voting phase *)

Lemma vc_get_set (m : VoteCounts) (k k' : string) (v : Z) :
  vc_get (vc_set m k v) k' = if decide (k = k') then Some v else vc_get m k'.
Proof.
  induction m as [|[k0 v0] m IH]; simpl.
  - by case_decide.
  - destruct (decide (k0 = k)) as [->|Hk0]; simpl.
    + by case_decide.
    + destruct (decide (k0 = k')) as [->|Hk0']; [|exact IH].
      by rewrite decide_False by congruence.
Qed.

Lemma vc_set_keys (m : VoteCounts) (k : string) (v : Z) :
  (vc_set m k v).*1 = if decide (k ∈ m.*1) then m.*1 else m.*1 ++ [k].
Proof.
  induction m as [|[k0 v0] m IH].
  - destruct (decide (k ∈ ([] : VoteCounts).*1)) as [Hin|_]; [|done].
    by apply elem_of_nil in Hin.
  - cbn [vc_set]. rewrite (fmap_cons fst (k0, v0) m). cbn [fst].
    destruct (decide (k0 = k)) as [->|Hk0].
    + rewrite fmap_cons. cbn [fst].
      rewrite decide_True; [done|]. apply list_elem_of_here.
    + rewrite fmap_cons, IH. cbn [fst].
      destruct (decide (k ∈ m.*1)) as [Hin|Hin].
      * rewrite decide_True; [done|]. by apply list_elem_of_further.
      * rewrite decide_False; [done|]. rewrite not_elem_of_cons. by split.
Qed.

Lemma vc_get_None (m : VoteCounts) (k : string) :
  vc_get m k = None ↔ k ∉ m.*1.
Proof.
  induction m as [|[k0 v0] m IH].
  - split; [intros _; apply not_elem_of_nil|done].
  - cbn [vc_get]. rewrite fmap_cons, not_elem_of_cons. cbn [fst].
    destruct (decide (k0 = k)) as [->|Hne].
    + split; [done|]. by intros [? _].
    + rewrite IH. split; [by split|by intros [_ ?]].
Qed.

(** The loop that fills the tally, started from any tally. *)
Lemma tally_fold (l : list Player) (m : VoteCounts) :
  let m' := foldl (λ voteCounts player,
                     match truthy (Player.votedFor player) with
                     | Some tgt =>
                         vc_set voteCounts tgt
                           (default 0 (vc_get voteCounts tgt) + 1)
                     | None => voteCounts
                     end) m l in
  (∀ tgt, default 0 (vc_get m' tgt)
          = default 0 (vc_get m tgt) + Z.of_nat (ballots l tgt))
  ∧ (NoDup m.*1 → NoDup m'.*1)
  ∧ (∀ tgt, tgt ∈ m'.*1 ↔ tgt ∈ m.*1 ∨ (0 < ballots l tgt)%nat).
Proof.
  revert m. induction l as [|p l IH]; intros m.
  - simpl. split_and!; [intros; unfold ballots; simpl; lia|done|].
    intros tgt. unfold ballots. simpl. split; [by left|]. intros [?|?]; [done|lia].
  - cbn [foldl]. cbv zeta in IH |- *.
    destruct (truthy (Player.votedFor p)) as [t|] eqn:Ht.
    + destruct (IH (vc_set m t (default 0 (vc_get m t) + 1)))
        as (Hget & Hnd & Hkeys).
      split_and!.
      * intros tgt. rewrite Hget, vc_get_set, ballots_cons, Ht. unfold names.
        destruct (decide (t = tgt)) as [->|Hne]; simpl.
        -- rewrite decide_True by done. lia.
        -- rewrite decide_False by congruence. lia.
      * intros Hm. apply Hnd. rewrite vc_set_keys. case_decide; [done|].
        apply NoDup_app. split_and!; [done| |apply NoDup_singleton].
        intros x Hx Hx'. apply list_elem_of_singleton in Hx'. by subst.
      * intros tgt. rewrite Hkeys, vc_set_keys.
        assert (Hb : (0 < ballots (p :: l) tgt)%nat
                     ↔ t = tgt ∨ (0 < ballots l tgt)%nat).
        { pose proof (ballots_cons p l tgt) as Hc. rewrite Ht in Hc.
          unfold names in Hc. destruct (decide (t = tgt)) as [->|Hne].
          - rewrite decide_True in Hc by done. split; [by left|lia].
          - rewrite decide_False in Hc by congruence.
            split; [right; lia|intros [?|?]; [done|lia]]. }
        rewrite Hb. destruct (decide (t ∈ m.*1)) as [Hin|Hin].
        -- split; [tauto|]. intros [? | [<- | ?]]; tauto.
        -- rewrite elem_of_app, list_elem_of_singleton.
           split; [intros [[? | ->] | ?] | intros [? | [-> | ?]]]; tauto.
    + destruct (IH m) as (Hget & Hnd & Hkeys). split_and!.
      * intros tgt. rewrite Hget, ballots_cons, Ht. unfold names.
        rewrite decide_False by done. lia.
      * exact Hnd.
      * intros tgt. rewrite Hkeys.
        pose proof (ballots_cons p l tgt) as Hc. rewrite Ht in Hc.
        unfold names in Hc. rewrite decide_False in Hc by done.
        split; (intros [?|?]; [by left|right; lia]).
Qed.

(** X27. The tally of a voting phase counts every vote once: the count
    of a target is the number of voters in the list whose vote names
    it, a target is listed exactly when somebody in the list votes for
    it, and no target is listed twice. *)
Theorem tallyVotes_counts (voters : list Player) :
  (∀ tgt, default 0 (vc_get (tallyVotes voters) tgt)
          = Z.of_nat (ballots voters tgt))
  ∧ NoDup (tallyVotes voters).*1
  ∧ (∀ tgt, tgt ∈ (tallyVotes voters).*1 ↔ (0 < ballots voters tgt)%nat).
Proof.
  destruct (tally_fold voters []) as (Hget & Hnd & Hkeys).
  unfold tallyVotes. split_and!.
  - intros tgt. by rewrite Hget.
  - apply Hnd. constructor.
  - intros tgt. rewrite Hkeys. split; [|by right].
    intros [Hin|?]; [|done]. by apply elem_of_nil in Hin.
Qed.

Lemma mostVoted_fold (ps : list Player) (vc : VoteCounts)
    (e0 e : option Player) (m0 m : Z) :
  foldl (λ '(eliminatedPlayer, maxVotes) '(playerId, votes),
           if decide (votes > maxVotes)
           then (findPlayer ps playerId, votes)
           else (eliminatedPlayer, maxVotes)) (e0, m0) vc = (e, m) →
  (e = e0 ∧ m = m0 ∧ Forall (λ x, x.2 ≤ m0) vc)
  ∨ (m0 < m
     ∧ ∃ before k after,
         vc = before ++ (k, m) :: after
         ∧ Forall (λ x, x.2 < m) before
         ∧ Forall (λ x, x.2 ≤ m) after
         ∧ e = findPlayer ps k).
Proof.
  revert e0 m0. induction vc as [|[k v] vc IH]; intros e0 m0 Hfold.
  { injection Hfold as <- <-. by left. }
  cbn [foldl] in Hfold. cbv beta iota zeta in Hfold.
  destruct (decide (v > m0)) as [Hgt|Hle].
  - right. destruct (IH _ _ Hfold)
      as [(He & Hm & Hall)|(Hlt & b & k' & a & Hvc & Hb & Ha & He)].
    + subst e m. split; [lia|]. exists [], k, vc. by split_and!.
    + split; [lia|]. exists ((k, v) :: b), k', a. rewrite Hvc.
      split_and!; try done. constructor; [simpl; lia|done].
  - destruct (IH _ _ Hfold)
      as [(He & Hm & Hall)|(Hlt & b & k' & a & Hvc & Hb & Ha & He)].
    + left. split_and!; try done. constructor; [simpl; lia|done].
    + right. split; [done|]. exists ((k, v) :: b), k', a. rewrite Hvc.
      split_and!; try done. constructor; [simpl; lia|done].
Qed.

(** X28. The scan of the tally keeps the first target with the highest
    count: when some count is positive, the returned maximum is the
    highest count, the returned player is the one found for the first
    target that attains it (nobody when that target is no player of the
    list), every earlier target has strictly fewer votes and no later
    one has more; when no count is positive nobody is returned and the
    maximum is 0. *)
Theorem mostVoted_first_maximum (ps : list Player) (vc : VoteCounts)
    (e : option Player) (m : Z) :
  mostVoted ps vc = (e, m) →
  (e = None ∧ m = 0 ∧ Forall (λ x, x.2 ≤ 0) vc)
  ∨ (0 < m
     ∧ ∃ before k after,
         vc = before ++ (k, m) :: after
         ∧ Forall (λ x, x.2 < m) before
         ∧ Forall (λ x, x.2 ≤ m) after
         ∧ e = findPlayer ps k).
Proof. apply (mostVoted_fold ps vc None e 0 m). Qed.

Lemma mostVoted_first_maximum_witness :
  ∃ before k after,
    tallyVotes (players TieVote.db) = before ++ (k, 2) :: after
    ∧ Forall (λ x, x.2 < 2) before
    ∧ Forall (λ x, x.2 ≤ 2) after
    ∧ getPlayer TieVote.db "b" = findPlayer (players TieVote.db) k.
Proof.
  destruct (mostVoted_first_maximum (players TieVote.db)
              (tallyVotes (players TieVote.db))
              (getPlayer TieVote.db "b") 2 eq_refl)
    as [(_ & Hm & _)|(_ & Hex)]; [done|exact Hex].
Defined.

(** * Properties of the connection registry *)

Lemma onClose_lookup (hub : Hub) (ws : nat) (g : string) (s : gset nat) :
  gameConnections (onClose hub ws) !! g = Some s
  ↔ ∃ s0, gameConnections hub !! g = Some s0 ∧ s = s0 ∖ {[ ws ]} ∧ s ≠ ∅.
Proof.
  unfold onClose. simpl. rewrite map_lookup_filter_Some, lookup_fmap. simpl.
  destruct (gameConnections hub !! g) as [s0|]; simpl.
  - split.
    + intros [[= <-] Hne]. by exists s0.
    + intros (s1 & [= <-] & -> & Hne). done.
  - split; [by intros [? _]|by intros (? & ? & _)].
Qed.

Lemma onClose_connectionsOf (hub : Hub) (ws : nat) (g : string) :
  connectionsOf (onClose hub ws) g = connectionsOf hub g ∖ {[ ws ]}.
Proof.
  unfold connectionsOf.
  destruct (gameConnections (onClose hub ws) !! g) as [s|] eqn:Hs.
  - apply onClose_lookup in Hs as (s0 & -> & -> & _). done.
  - destruct (gameConnections hub !! g) as [s0|] eqn:Hs0; simpl; [|set_solver].
    destruct (decide (s0 ∖ {[ ws ]} = ∅)) as [->|Hne]; [done|].
    assert (Hsome : gameConnections (onClose hub ws) !! g = Some (s0 ∖ {[ ws ]})).
    { apply onClose_lookup. by exists s0. }
    congruence.
Qed.

(** X29. When a connection closes, it is removed from the connections
    of every session and from every participant it stood for; a
    session left without connection loses its entry, so no entry is
    ever empty; every other connection stays registered where it was,
    and a later broadcast reaches exactly the connections it reached
    before, without the closed one. *)
Theorem onClose_spec (hub : Hub) (ws : nat) :
  (∀ g s, gameConnections (onClose hub ws) !! g = Some s →
     (ws ∉ s) ∧ (s ≠ ∅))
  ∧ (∀ g, connectionsOf (onClose hub ws) g = connectionsOf hub g ∖ {[ ws ]})
  ∧ (∀ p c, playerConnections (onClose hub ws) !! p = Some c
            ↔ playerConnections hub !! p = Some c ∧ c ≠ ws)
  ∧ (∀ opened g, broadcastToGame opened (onClose hub ws) g
                 = broadcastToGame opened hub g ∖ {[ ws ]}).
Proof.
  split_and!.
  - intros g s Hs. apply onClose_lookup in Hs as (s0 & _ & -> & Hne).
    split; [set_solver|done].
  - apply onClose_connectionsOf.
  - intros p c. unfold onClose. simpl. by rewrite map_lookup_filter_Some.
  - intros opened g.
    assert (Hb : ∀ h, broadcastToGame opened h g
                      = filter (λ c, c ∈ opened) (connectionsOf h g)).
    { intros h. unfold broadcastToGame, connectionsOf.
      destruct (gameConnections h !! g); [done|]. simpl. set_solver. }
    rewrite !Hb, onClose_connectionsOf. set_solver.
Qed.

(** X30. A 'PLAYER_JOINED' message with a session and a participant
    identifier registers its connection for the session and makes it
    the participant's connection, replacing an earlier one; the
    connections of other sessions and participants are as before.  The
    message is then broadcast to the open connections of that session,
    the sender included when it is open; no broadcast ever reaches a
    connection that is not open or not registered for the session.  A
    message without participant identifier changes nothing and is not
    broadcast. *)
Theorem onPlayerJoined_spec (opened : gset nat) (hub : Hub) (ws : nat)
    (gameId : string) (playerId : option string) :
  let r := onPlayerJoined opened hub ws gameId playerId in
  (∀ p, gameId ≠ "" → truthy playerId = Some p →
     connectionsOf r.1 gameId = {[ ws ]} ∪ connectionsOf hub gameId
     ∧ playerConnections r.1 !! p = Some ws
     ∧ (∀ g, g ≠ gameId → connectionsOf r.1 g = connectionsOf hub g)
     ∧ (∀ q, q ≠ p → playerConnections r.1 !! q = playerConnections hub !! q)
     ∧ r.2 = filter (λ c, c ∈ opened) ({[ ws ]} ∪ connectionsOf hub gameId)
     ∧ (ws ∈ r.2 ↔ ws ∈ opened))
  ∧ (gameId = "" ∨ truthy playerId = None → r = (hub, ∅))
  ∧ (∀ g c, c ∈ broadcastToGame opened hub g →
            c ∈ opened ∧ c ∈ connectionsOf hub g).
Proof.
  intros r. subst r. unfold onPlayerJoined. split_and!.
  - intros p Hg Hp. rewrite Hp. simpl. rewrite decide_False by done.
    unfold broadcastToGame, connectionsOf. cbn [fst snd gameConnections
      playerConnections].
    rewrite !lookup_insert_eq. simpl. split_and!.
    + done.
    + done.
    + intros g Hne. by rewrite lookup_insert_ne.
    + intros q Hne. by rewrite lookup_insert_ne.
    + done.
    + rewrite elem_of_filter. set_solver.
  - intros [-> | Hp].
    + simpl. done.
    + rewrite Hp. simpl. by case_decide.
  - intros g c. unfold broadcastToGame, connectionsOf.
    destruct (gameConnections hub !! g) as [s|]; simpl; [|set_solver].
    rewrite elem_of_filter. tauto.
Qed.

Lemma onPlayerJoined_spec_witness :
  let hub := {| gameConnections := {[ "g1" := {[ 1%nat ]} ]};
                playerConnections := {[ "a" := 1%nat ]} |} in
  let r := onPlayerJoined {[ 1%nat; 2%nat ]} hub 2%nat "g1" (Some "b") in
  connectionsOf r.1 "g1" = {[ 2%nat ]} ∪ connectionsOf hub "g1"
  ∧ playerConnections r.1 !! "b" = Some 2%nat.
Proof.
  intros hub r.
  destruct (onPlayerJoined_spec {[ 1%nat; 2%nat ]} hub 2%nat "g1" (Some "b"))
    as [Hjoin _].
  destruct (Hjoin "b") as (Hc & Hp & _); [done|done|].
  split; [exact Hc|exact Hp].
Defined.
